(** * PollingServiceManager: a shallow embedding of the job lifecycle

    The TypeScript class [PollingServiceManager<T, U, V>] drives each job
    through trigger, poll (on a timer) and complete.  The embedding keeps the
    shape of the source:

    - job objects live in a store ([heap]) and the manager's [Map] holds
      references to them, because the closures of the source (the timer
      callback, the code after each [await]) keep the [job] object they
      captured, whatever the map says later;
    - the methods are written in a small state-and-exception monad [Js], with
      [try_catch] for [try { } catch { }] and [async] for the body of an
      [async] function, whose exceptions reject its promise instead of
      reaching the caller;
    - an [await] cuts a method in two: the part before it registers a
      continuation in [awaits], the part after it ([.._resume]) runs when the
      environment settles the promise;
    - [setTimeout] registers a callback in [timers]; the environment fires it.

    Logging ([this.logger]) writes to an external sink only and is left out,
    and so are [abortAllJobs] and [getAllJobs], which iterate the map and of
    which nothing is proved here. *)

From stdpp Require Import gmap strings pretty list.

Open Scope Z_scope.

(** ** JavaScript values *)

(** The classes of [Error] instances: [Error] itself, the two classes of this
    module, and the other subclasses ([TypeError], ...) by their name. *)
Inductive ErrorClass :=
| PlainError
| PollingErrorClass
| PollingAbortErrorClass
| NamedError (name : string).

(** An [Error] instance: its class and its message. *)
Record JsError := mkError { err_class : ErrorClass; message : string }.

(** [class PollingError extends Error] *)
Definition PollingError (msg : string) : JsError := mkError PollingErrorClass msg.

(** [class PollingAbortError extends PollingError] *)
Definition PollingAbortError (msg : string) : JsError :=
  mkError PollingAbortErrorClass msg.

(** The values the generic parameters [T], [U], [V] and a [throw] can carry.
    Numbers are the safe integers (at most [MAX_SAFE_INTEGER] in magnitude),
    plus [NaN].  An object that is not an [Error] comes with what [String()]
    does with it: the string its [toString] returns (["[object Object]"] for
    a plain object), or the exception the conversion ends with (a [TypeError]
    for an object without a prototype, or whatever its [toString] throws). *)
Inductive JsValue :=
| VUndefined
| VNull
| VBool (b : bool)
| VNum (n : Z)
| VNaN
| VStr (s : string)
| VObj (addr : nat) (toString : Conversion)
| VError (e : JsError)
with Conversion :=
| Converts (s : string)
| ConversionThrows (v : JsValue).

(** [Number.MAX_SAFE_INTEGER] *)
Definition MAX_SAFE_INTEGER : Z := 2 ^ 53 - 1.

(** How a synchronous call or the evaluation of an expression ends.  [Wrong]
    marks what the model does not cover: a reference without an object, which
    no run from [new_manager] produces, and the conversion to a string of a
    number beyond the safe integers. *)
Inductive Completion (A : Type) :=
| Normal (a : A)
| Throw (v : JsValue)
| Wrong.
Arguments Normal {A} a.
Arguments Throw {A} v.
Arguments Wrong {A}.

(** ToBoolean, as used by [if (!x)]. *)
Definition truthy (v : JsValue) : bool :=
  match v with
  | VUndefined | VNull | VNaN => false
  | VBool b => b
  | VNum n => negb (n =? 0)
  | VStr s => negb (String.eqb s "")
  | VObj _ _ | VError _ => true
  end.

(** [v !== undefined] *)
Definition is_defined (v : JsValue) : bool :=
  match v with VUndefined => false | _ => true end.

Definition class_name (c : ErrorClass) : string :=
  match c with
  | PlainError => "Error"
  | PollingErrorClass => "PollingError"
  | PollingAbortErrorClass => "PollingAbortError"
  | NamedError name => name
  end.

(** [String(v)].  A safe integer prints as its decimal digits; beyond them
    [Number::toString] rounds to the shortest digits that give the number back
    and, from 1e21 on, switches to the exponent form, which is not modelled.
    For an object the conversion runs its [toString], and may throw. *)
Definition js_String (v : JsValue) : Completion string :=
  match v with
  | VUndefined => Normal "undefined"
  | VNull => Normal "null"
  | VBool true => Normal "true"
  | VBool false => Normal "false"
  | VNum n => if Z.abs n <=? MAX_SAFE_INTEGER then Normal (pretty n) else Wrong
  | VNaN => Normal "NaN"
  | VStr s => Normal s
  | VObj _ (Converts s) => Normal s
  | VObj _ (ConversionThrows w) => Throw w
  | VError e =>
      Normal (if String.eqb (class_name (err_class e)) "" then message e
              else if String.eqb (message e) "" then class_name (err_class e)
              else class_name (err_class e) +:+ ": " +:+ message e)
  end.

(** [error instanceof Error ? error : new Error(String(error))] *)
Definition toError (error : JsValue) : Completion JsError :=
  match error with
  | VError e => Normal e
  | _ =>
      match js_String error with
      | Normal s => Normal (mkError PlainError s)
      | Throw w => Throw w
      | Wrong => Wrong
      end
  end.

(** [error instanceof PollingAbortError] *)
Definition instanceof_PollingAbortError (e : JsError) : bool :=
  match err_class e with PollingAbortErrorClass => true | _ => false end.

(** ** Job records *)

Inductive JobState := PENDING | POLLING | COMPLETED | FAILED | ABORTED.

(** [a === b] on job states *)
Definition JobState_eqb (a b : JobState) : bool :=
  match a, b with
  | PENDING, PENDING | POLLING, POLLING | COMPLETED, COMPLETED
  | FAILED, FAILED | ABORTED, ABORTED => true
  | _, _ => false
  end.

(** What a call of a caller-supplied asynchronous function does before it
    returns: it throws, or it hands back a promise that the environment
    settles later. *)
Inductive Started := Throws (v : JsValue) | Promise.

(** How a call of [onComplete] or [onError] ends. *)
Inductive Outcome := Returns | Raises (v : JsValue).

(** [{done: boolean, result?: U}]; an absent [result] reads as [undefined]. *)
Record PollResponse := mkPollResponse { done : bool; result : JsValue }.

Definition TriggerFn := unit → Started.
Definition PollFn := JsValue → Started.
Definition CompleteFn := JsValue → Started.

Definition ObjRef := nat.
Definition TimerId := nat.
Definition AwaitId := nat.

(** [interface Job<T, U, V>]; optional value fields read as [undefined] when
    unset. *)
Record Job := mkJob {
  id : string;
  state : JobState;
  triggerFn : TriggerFn;
  pollFn : PollFn;
  completeFn : CompleteFn;
  onComplete : option (JsValue → Outcome);
  onError : option (JsError → Outcome);
  triggerResult : JsValue;
  pollResult : JsValue;
  finalResult : JsValue;
  retryCount : Z;
  error : option JsError;
  timerId : option TimerId
}.

Definition set_state (s : JobState) (j : Job) : Job :=
  mkJob (id j) s (triggerFn j) (pollFn j) (completeFn j) (onComplete j)
        (onError j) (triggerResult j) (pollResult j) (finalResult j)
        (retryCount j) (error j) (timerId j).

Definition set_triggerResult (v : JsValue) (j : Job) : Job :=
  mkJob (id j) (state j) (triggerFn j) (pollFn j) (completeFn j) (onComplete j)
        (onError j) v (pollResult j) (finalResult j)
        (retryCount j) (error j) (timerId j).

Definition set_pollResult (v : JsValue) (j : Job) : Job :=
  mkJob (id j) (state j) (triggerFn j) (pollFn j) (completeFn j) (onComplete j)
        (onError j) (triggerResult j) v (finalResult j)
        (retryCount j) (error j) (timerId j).

Definition set_finalResult (v : JsValue) (j : Job) : Job :=
  mkJob (id j) (state j) (triggerFn j) (pollFn j) (completeFn j) (onComplete j)
        (onError j) (triggerResult j) (pollResult j) v
        (retryCount j) (error j) (timerId j).

Definition set_retryCount (n : Z) (j : Job) : Job :=
  mkJob (id j) (state j) (triggerFn j) (pollFn j) (completeFn j) (onComplete j)
        (onError j) (triggerResult j) (pollResult j) (finalResult j)
        n (error j) (timerId j).

Definition set_error (e : JsError) (j : Job) : Job :=
  mkJob (id j) (state j) (triggerFn j) (pollFn j) (completeFn j) (onComplete j)
        (onError j) (triggerResult j) (pollResult j) (finalResult j)
        (retryCount j) (Some e) (timerId j).

Definition set_timerId (t : TimerId) (j : Job) : Job :=
  mkJob (id j) (state j) (triggerFn j) (pollFn j) (completeFn j) (onComplete j)
        (onError j) (triggerResult j) (pollResult j) (finalResult j)
        (retryCount j) (error j) (Some t).

(** ** The manager and the event loop around it *)

(** [PollingServiceManagerOptions], every field optional. *)
Record PollingServiceManagerOptions := mkOptions {
  pollingInterval_opt : option Z;
  maxRetryAttempts_opt : option Z;
  logLevel_opt : option string
}.

(** [Required<PollingServiceManagerOptions>] *)
Record RequiredOptions := mkRequired {
  pollingInterval : Z;
  maxRetryAttempts : Z;
  logLevel : string
}.

(** The closure handed to [setTimeout] in [executeJobPolling]: it captured
    [jobId] and the [job] object. *)
Inductive TimerCallback := PollTick (jobId : string) (job : ObjRef).

(** The rest of a method after its [await], with the variables it captured. *)
Inductive Continuation :=
| AwaitTrigger (jobId : string) (job : ObjRef)
| AwaitPoll (jobId : string) (job : ObjRef)
| AwaitComplete (jobId : string) (job : ObjRef).

(** Calls that leave the manager, in the order they happen, and promises of
    the manager's own async functions that reject with nobody listening. *)
Inductive Effect :=
| CallTrigger (job : ObjRef)
| CallPoll (job : ObjRef) (arg : JsValue)
| CallComplete (job : ObjRef) (arg : JsValue)
| CallOnComplete (job : ObjRef) (arg : JsValue)
| CallOnError (job : ObjRef) (arg : JsError)
| UnhandledRejection (v : JsValue).

Record Machine := mkMachine {
  jobs : gmap string ObjRef;          (* this.jobs *)
  options : RequiredOptions;          (* this.options *)
  heap : gmap ObjRef Job;             (* the job objects *)
  nextRef : ObjRef;
  timers : gmap TimerId TimerCallback; (* pending setTimeout callbacks *)
  nextTimer : TimerId;
  awaits : gmap AwaitId Continuation; (* suspended awaits *)
  nextAwait : AwaitId;
  effects : list Effect
}.

Definition with_jobs (f : gmap string ObjRef → gmap string ObjRef) (m : Machine) : Machine :=
  mkMachine (f (jobs m)) (options m) (heap m) (nextRef m) (timers m)
            (nextTimer m) (awaits m) (nextAwait m) (effects m).

Definition with_heap (f : gmap ObjRef Job → gmap ObjRef Job) (m : Machine) : Machine :=
  mkMachine (jobs m) (options m) (f (heap m)) (nextRef m) (timers m)
            (nextTimer m) (awaits m) (nextAwait m) (effects m).

Definition with_timers (f : gmap TimerId TimerCallback → gmap TimerId TimerCallback)
    (m : Machine) : Machine :=
  mkMachine (jobs m) (options m) (heap m) (nextRef m) (f (timers m))
            (nextTimer m) (awaits m) (nextAwait m) (effects m).

Definition with_awaits (f : gmap AwaitId Continuation → gmap AwaitId Continuation)
    (m : Machine) : Machine :=
  mkMachine (jobs m) (options m) (heap m) (nextRef m) (timers m)
            (nextTimer m) (f (awaits m)) (nextAwait m) (effects m).

(** [new PollingServiceManager(options)]: [??] fills in the defaults. *)
Definition new_manager (opts : option PollingServiceManagerOptions) : Machine :=
  mkMachine ∅
    (mkRequired
       (default 5000 (opts ≫= pollingInterval_opt))
       (default 10 (opts ≫= maxRetryAttempts_opt))
       (default "info" (opts ≫= logLevel_opt)))
    ∅ 0%nat ∅ 1%nat ∅ 0%nat [].

(** ** The monad of method bodies *)

Definition Js (A : Type) : Type := Machine → Completion A * Machine.

Definition ret {A} (a : A) : Js A := λ m, (Normal a, m).

Definition bind {A B} (c : Js A) (k : A → Js B) : Js B :=
  λ m, match c m with
       | (Normal a, m') => k a m'
       | (Throw v, m') => (Throw v, m')
       | (Wrong, m') => (Wrong, m')
       end.

Global Instance Js_ret : MRet Js := @ret.
Global Instance Js_bind : MBind Js := λ A B k c, bind c k.

(** [throw v] *)
Definition throw {A} (v : JsValue) : Js A := λ m, (Throw v, m).

(** The evaluation of an expression that reads no state. *)
Definition evaluate {A} (c : Completion A) : Js A := λ m, (c, m).

(** [try { body } catch (error) { handler }] *)
Definition try_catch {A} (body : Js A) (handler : JsValue → Js A) : Js A :=
  λ m, match body m with
       | (Throw v, m') => handler v m'
       | r => r
       end.

Definition emit (e : Effect) : Js unit :=
  λ m, (Normal (),
        mkMachine (jobs m) (options m) (heap m) (nextRef m) (timers m)
                  (nextTimer m) (awaits m) (nextAwait m) (effects m ++ [e])).

(** The call of an [async] function, up to its first suspension: the caller
    gets a promise back, never an exception; no caller in this class awaits or
    catches that promise. *)
Definition async (body : Js unit) : Js unit :=
  λ m, match body m with
       | (Throw v, m') => emit (UnhandledRejection v) m'
       | r => r
       end.

Definition get_options : Js RequiredOptions := λ m, (Normal (options m), m).

(** [this.jobs.get(jobId)] *)
Definition jobs_get (jobId : string) : Js (option ObjRef) :=
  λ m, (Normal (jobs m !! jobId), m).

(** [this.jobs.set(jobId, job)] *)
Definition jobs_set (jobId : string) (job : ObjRef) : Js unit :=
  λ m, (Normal (), with_jobs (insert jobId job) m).

(** [this.jobs.delete(jobId)] *)
Definition jobs_delete (jobId : string) : Js unit :=
  λ m, (Normal (), with_jobs (delete jobId) m).

(** An object literal [{ ... }] evaluates to a reference to a new object. *)
Definition new_object (j : Job) : Js ObjRef :=
  λ m, (Normal (nextRef m),
        mkMachine (jobs m) (options m) (<[nextRef m := j]> (heap m))
                  (S (nextRef m)) (timers m) (nextTimer m) (awaits m)
                  (nextAwait m) (effects m)).

(** Reading the fields of [job]. *)
Definition load (job : ObjRef) : Js Job :=
  λ m, match heap m !! job with
       | Some j => (Normal j, m)
       | None => (Wrong, m)
       end.

(** An assignment [job.field = ...]. *)
Definition store (job : ObjRef) (f : Job → Job) : Js unit :=
  λ m, match heap m !! job with
       | Some j => (Normal (), with_heap (insert job (f j)) m)
       | None => (Wrong, m)
       end.

(** [setTimeout(cb, delay)]: the delay orders the firing of timers in real
    time; here any pending timer may fire. *)
Definition setTimeout (cb : TimerCallback) (delay : Z) : Js TimerId :=
  λ m, (Normal (nextTimer m),
        mkMachine (jobs m) (options m) (heap m) (nextRef m)
                  (<[nextTimer m := cb]> (timers m)) (S (nextTimer m))
                  (awaits m) (nextAwait m) (effects m)).

(** [clearTimeout(t)]: drops the timer if it is still pending. *)
Definition clearTimeout (t : TimerId) : Js unit :=
  λ m, (Normal (), with_timers (delete t) m).

(** [await p] on a promise of the caller's: the method stops here and its
    continuation waits for the promise to settle. *)
Definition suspend (k : Continuation) : Js unit :=
  λ m, (Normal (),
        mkMachine (jobs m) (options m) (heap m) (nextRef m) (timers m)
                  (nextTimer m) (<[nextAwait m := k]> (awaits m))
                  (S (nextAwait m)) (effects m)).

(** Calling one of the caller's asynchronous functions. *)
Definition call_async (e : Effect) (r : Started) : Js unit :=
  emit e ;;
  match r with
  | Throws v => throw v
  | Promise => ret ()
  end.

(** Calling [onComplete] or [onError]: what the callback raises is thrown at
    the call. *)
Definition call_callback (e : Effect) (r : Outcome) : Js unit :=
  emit e ;;
  match r with
  | Returns => ret ()
  | Raises v => throw v
  end.

(** How the environment settles a promise. *)
Inductive Settlement (A : Type) := Fulfilled (a : A) | Rejected (v : JsValue).
Arguments Fulfilled {A} a.
Arguments Rejected {A} v.

(** The value of [await p] once [p] has settled. *)
Definition awaited {A} (s : Settlement A) : Js A :=
  match s with
  | Fulfilled a => ret a
  | Rejected v => throw v
  end.

(** ** The methods of [PollingServiceManager] *)

(** [generateJobId]: [Date.now()] and the digits of [Math.random()] come from
    the environment. *)
Definition generateJobId (now : Z) (random : string) : string :=
  "job_" +:+ pretty now +:+ "_" +:+ random.

(** [private handleJobError(jobId, error): void] *)
Definition handleJobError (jobId : string) (error : JsError) : Js unit :=
  oj ← jobs_get jobId;
  match oj with
  | None => ret ()
  | Some job =>
      store job (set_state FAILED) ;;
      store job (set_error error) ;;
      j ← load job;
      match onError j with
      | Some cb =>
          try_catch (call_callback (CallOnError job error) (cb error))
                    (λ callbackError, ret ())
      | None => ret ()
      end ;;
      if instanceof_PollingAbortError error then ret () else ret ()
  end.

(** [catch (error) { this.handleJobError(jobId, error instanceof Error ? error
    : new Error(String(error))); }], the catch block of every async method:
    the argument is evaluated first, and what it throws leaves the block. *)
Definition catch_handler (jobId : string) (error : JsValue) : Js unit :=
  e ← evaluate (toError error);
  handleJobError jobId e.

(** [private async executeJobCompletion(jobId)], up to its [await]. *)
Definition executeJobCompletion (jobId : string) : Js unit :=
  async (
    oj ← jobs_get jobId;
    match oj with
    | None => ret ()
    | Some job =>
        try_catch
          (j ← load job;
           if negb (truthy (pollResult j))
           then throw (VError (PollingError "Poll result is undefined"))
           else
             call_async (CallComplete job (pollResult j))
                        (completeFn j (pollResult j)) ;;
             suspend (AwaitComplete jobId job))
          (catch_handler jobId)
    end).

(** [executeJobCompletion] after [await job.completeFn(job.pollResult)]. *)
Definition executeJobCompletion_resume (jobId : string) (job : ObjRef)
    (s : Settlement JsValue) : Js unit :=
  async (
    try_catch
      (finalResult ← awaited s;
       store job (set_finalResult finalResult) ;;
       store job (set_state COMPLETED) ;;
       j ← load job;
       match onComplete j with
       | Some cb =>
           try_catch (call_callback (CallOnComplete job finalResult) (cb finalResult))
                     (λ callbackError, ret ())
       | None => ret ()
       end)
      (catch_handler jobId)).

(** [private executeJobPolling(jobId): void] *)
Definition executeJobPolling (jobId : string) : Js unit :=
  oj ← jobs_get jobId;
  match oj with
  | None => ret ()
  | Some job =>
      j ← load job;
      if negb (JobState_eqb (state j) POLLING) then ret ()
      else
        opts ← get_options;
        t ← setTimeout (PollTick jobId job) (pollingInterval opts);
        store job (set_timerId t)
  end.

(** The [async () => { ... }] handed to [setTimeout], up to its [await]. *)
Definition pollTick (jobId : string) (job : ObjRef) : Js unit :=
  async (
    try_catch
      (j ← load job;
       if negb (truthy (triggerResult j))
       then throw (VError (PollingError "Trigger result is undefined"))
       else
         call_async (CallPoll job (triggerResult j))
                    (pollFn j (triggerResult j)) ;;
         suspend (AwaitPoll jobId job))
      (catch_handler jobId)).

(** The timer callback after [await job.pollFn(job.triggerResult)]. *)
Definition pollTick_resume (jobId : string) (job : ObjRef)
    (s : Settlement PollResponse) : Js unit :=
  async (
    try_catch
      (pollResponse ← awaited s;
       if done pollResponse && is_defined (result pollResponse)
       then
         store job (set_pollResult (result pollResponse)) ;;
         executeJobCompletion jobId
       else
         store job (λ j, set_retryCount (retryCount j + 1) j) ;;
         j ← load job;
         opts ← get_options;
         if retryCount j >? maxRetryAttempts opts
         then throw (VError (PollingError
                ("Exceeded maximum retry attempts ("
                   +:+ pretty (maxRetryAttempts opts) +:+ ")")))
         else executeJobPolling jobId)
      (catch_handler jobId)).

(** [private async executeJobTrigger(jobId)], up to its [await]. *)
Definition executeJobTrigger (jobId : string) : Js unit :=
  async (
    oj ← jobs_get jobId;
    match oj with
    | None => ret ()
    | Some job =>
        try_catch
          (store job (set_state POLLING) ;;
           j ← load job;
           call_async (CallTrigger job) (triggerFn j ()) ;;
           suspend (AwaitTrigger jobId job))
          (catch_handler jobId)
    end).

(** [executeJobTrigger] after [await job.triggerFn()]. *)
Definition executeJobTrigger_resume (jobId : string) (job : ObjRef)
    (s : Settlement JsValue) : Js unit :=
  async (
    try_catch
      (triggerResult ← awaited s;
       store job (set_triggerResult triggerResult) ;;
       executeJobPolling jobId)
      (catch_handler jobId)).

(** [startJob(triggerFn, pollFn, completeFn, onComplete?, onError?): string] *)
Definition startJob (now : Z) (random : string)
    (triggerFn : TriggerFn) (pollFn : PollFn) (completeFn : CompleteFn)
    (onComplete : option (JsValue → Outcome))
    (onError : option (JsError → Outcome)) : Js string :=
  let jobId := generateJobId now random in
  job ← new_object
          (mkJob jobId PENDING triggerFn pollFn completeFn onComplete onError
                 VUndefined VUndefined VUndefined 0 None None);
  jobs_set jobId job ;;
  executeJobTrigger jobId ;;
  ret jobId.

(** [abortJob(jobId): boolean] *)
Definition abortJob (jobId : string) : Js bool :=
  oj ← jobs_get jobId;
  match oj with
  | None => ret false
  | Some job =>
      j ← load job;
      match timerId j with
      | Some t => clearTimeout t
      | None => ret ()
      end ;;
      store job (set_state ABORTED) ;;
      ret true
  end.

(** [getJobState(jobId): JobState | null] *)
Definition getJobState (jobId : string) : Js (option JobState) :=
  oj ← jobs_get jobId;
  match oj with
  | None => ret None
  | Some job => j ← load job; ret (Some (state j))
  end.

(** [cleanupJob(jobId): boolean] *)
Definition cleanupJob (jobId : string) : Js bool :=
  oj ← jobs_get jobId;
  match oj with
  | None => ret false
  | Some job =>
      j ← load job;
      (if JobState_eqb (state j) POLLING
       then abortJob jobId ;; ret ()
       else ret ()) ;;
      jobs_delete jobId ;;
      ret true
  end.

(** ** The event loop *)

(** What the environment does to the manager between two calls of its
    methods: it fires a pending timer or settles an awaited promise. *)
Inductive Event :=
| TimerFired (t : TimerId)
| TriggerSettled (k : AwaitId) (s : Settlement JsValue)
| PollSettled (k : AwaitId) (s : Settlement PollResponse)
| CompleteSettled (k : AwaitId) (s : Settlement JsValue).

(** A task of the event loop runs to its end; it has no caller to throw to. *)
Definition run_task (c : Js unit) (m : Machine) : option Machine :=
  match c m with
  | (Normal _, m') => Some m'
  | _ => None
  end.

(** One turn of the event loop; [None] when the event cannot happen in [m]. *)
Definition step (e : Event) (m : Machine) : option Machine :=
  match e with
  | TimerFired t =>
      match timers m !! t with
      | Some (PollTick jobId job) =>
          run_task (pollTick jobId job) (with_timers (delete t) m)
      | None => None
      end
  | TriggerSettled k s =>
      match awaits m !! k with
      | Some (AwaitTrigger jobId job) =>
          run_task (executeJobTrigger_resume jobId job s) (with_awaits (delete k) m)
      | _ => None
      end
  | PollSettled k s =>
      match awaits m !! k with
      | Some (AwaitPoll jobId job) =>
          run_task (pollTick_resume jobId job s) (with_awaits (delete k) m)
      | _ => None
      end
  | CompleteSettled k s =>
      match awaits m !! k with
      | Some (AwaitComplete jobId job) =>
          run_task (executeJobCompletion_resume jobId job s) (with_awaits (delete k) m)
      | _ => None
      end
  end.

(** What happens to a manager: a call of one of its public methods by the
    host, or an event. *)
Inductive Action :=
| StartJob (now : Z) (random : string)
    (triggerFn : TriggerFn) (pollFn : PollFn) (completeFn : CompleteFn)
    (onComplete : option (JsValue → Outcome))
    (onError : option (JsError → Outcome))
| AbortJob (jobId : string)
| CleanupJob (jobId : string)
| Env (e : Event).

(** A call from the host, keeping only the machine: [None] if it threw. *)
Definition host_call {A} (c : Js A) (m : Machine) : option Machine :=
  match c m with
  | (Normal _, m') => Some m'
  | _ => None
  end.

Definition exec (a : Action) (m : Machine) : option Machine :=
  match a with
  | StartJob now random tf pf cf oc oe => host_call (startJob now random tf pf cf oc oe) m
  | AbortJob jobId => host_call (abortJob jobId) m
  | CleanupJob jobId => host_call (cleanupJob jobId) m
  | Env e => step e m
  end.

Fixpoint run (l : list Action) (m : Machine) : option Machine :=
  match l with
  | [] => Some m
  | a :: l' =>
      match exec a m with
      | Some m' => run l' m'
      | None => None
      end
  end.

(** ** Observations *)

(** The job object the manager holds under [jobId]. *)
Definition job_of (jobId : string) (m : Machine) : option Job :=
  jobs m !! jobId ≫= λ job, heap m !! job.

(** The state a caller reads with [getJobState]. *)
Definition observed_state (jobId : string) (m : Machine) : option JobState :=
  match getJobState jobId m with
  | (Normal o, _) => o
  | _ => None
  end.

Definition is_CallPoll (job : ObjRef) (e : Effect) : bool :=
  match e with CallPoll r _ => bool_decide (r = job) | _ => false end.

Definition is_CallComplete (job : ObjRef) (e : Effect) : bool :=
  match e with CallComplete r _ => bool_decide (r = job) | _ => false end.

(** How often [pollFn] of [job] has been called so far. *)
Definition poll_calls (job : ObjRef) (m : Machine) : nat :=
  length (filter (λ e, is_CallPoll job e = true) (effects m)).

(** The job object a timer callback captured. *)
Definition callback_job (cb : TimerCallback) : ObjRef :=
  match cb with PollTick _ job => job end.

(** The timers pending for [job]. *)
Definition pending_timers (job : ObjRef) (m : Machine) : gmap TimerId TimerCallback :=
  filter (λ p, callback_job p.2 = job) (timers m).


(** ** Definitions used to state the properties *)

(** The call of [onError] that [handleJobError] makes for job [j], if any. *)
Definition onError_call (job : ObjRef) (e : JsError) (j : Job) : list Effect :=
  match onError j with
  | Some _ => [CallOnError job e]
  | None => []
  end.

(** The call of [onComplete] that a completion makes for job [j], if any. *)
Definition onComplete_call (job : ObjRef) (v : JsValue) (j : Job) : list Effect :=
  match onComplete j with
  | Some _ => [CallOnComplete job v]
  | None => []
  end.

(** The machine [handleJobError] leaves behind for a registered job. *)
Definition after_error (job : ObjRef) (e : JsError) (j : Job) (m : Machine) : Machine :=
  mkMachine (jobs m) (options m)
    (<[job := set_error e (set_state FAILED j)]> (heap m))
    (nextRef m) (timers m) (nextTimer m) (awaits m) (nextAwait m)
    (effects m ++ onError_call job e j).

(** The machine [abortJob] leaves behind for a registered job. *)
Definition after_abort (job : ObjRef) (j : Job) (m : Machine) : Machine :=
  mkMachine (jobs m) (options m)
    (<[job := set_state ABORTED j]> (heap m))
    (nextRef m)
    (match timerId j with
     | Some t => delete t (timers m)
     | None => timers m
     end)
    (nextTimer m) (awaits m) (nextAwait m) (effects m).

(** The message of the error synthesized at the retry ceiling. *)
Definition retry_ceiling_error (m : Machine) : JsError :=
  PollingError ("Exceeded maximum retry attempts ("
                  +:+ pretty (maxRetryAttempts (options m)) +:+ ")").




(** One round of polling as the environment drives it: the timer the job
    holds fires, and the promise [pollFn] returned resolves to [resp]. *)
Definition poll_round (job : ObjRef) (resp : PollResponse) (m : Machine)
    : option Machine :=
  j ← heap m !! job;
  t ← timerId j;
  m1 ← step (TimerFired t) m;
  step (PollSettled (nextAwait m) (Fulfilled resp)) m1.

Fixpoint poll_rounds (job : ObjRef) (resps : list PollResponse) (m : Machine)
    : option Machine :=
  match resps with
  | [] => Some m
  | r :: rs => m' ← poll_round job r m; poll_rounds job rs m'
  end.

(** A response that does not complete the job: not done, or done without a
    result. *)
Definition not_done (r : PollResponse) : Prop :=
  done r && is_defined (result r) = false.

(** The invariant of the polling loop under a ceiling of [n]: the job is
    registered, it is [j0] but for [i] polls that were not done and the timer
    [t] it holds, and [t] is the one timer pending for it. *)
Definition polling_at (n : nat) (jobId : string) (job : ObjRef) (j0 : Job)
    (i : nat) (t : TimerId) (m : Machine) : Prop :=
  maxRetryAttempts (options m) = Z.of_nat n ∧
  jobs m !! jobId = Some job ∧
  heap m !! job = Some (set_timerId t (set_retryCount (Z.of_nat i) j0)) ∧
  timers m !! t = Some (PollTick jobId job) ∧
  (∀ t' cb, timers m !! t' = Some cb → callback_job cb = job → t' = t).

(** ** Reachable machines *)

(** The job id a timer callback captured. *)
Definition callback_id (cb : TimerCallback) : string :=
  match cb with PollTick jobId _ => jobId end.

(** The job id and the job object a continuation captured. *)
Definition cont_id (c : Continuation) : string :=
  match c with
  | AwaitTrigger jobId _ | AwaitPoll jobId _ | AwaitComplete jobId _ => jobId
  end.

Definition cont_job (c : Continuation) : ObjRef :=
  match c with
  | AwaitTrigger _ job | AwaitPoll _ job | AwaitComplete _ job => job
  end.

(** What holds of every machine a manager can be in: references point to
    objects, ids name one object, a pending timer belongs to a job in POLLING
    that holds it, a pending await belongs to a job in POLLING or ABORTED, and
    a job object has at most one thing pending. *)
Record well_formed (m : Machine) : Prop := mk_well_formed {
  wf_heap_lt : ∀ r j, heap m !! r = Some j → (r < nextRef m)%nat;
  wf_timer_lt : ∀ t cb, timers m !! t = Some cb → (t < nextTimer m)%nat;
  wf_await_lt : ∀ k c, awaits m !! k = Some c → (k < nextAwait m)%nat;
  wf_registry : ∀ i r, jobs m !! i = Some r →
    ∃ j, heap m !! r = Some j ∧ id j = i;
  wf_ids : ∀ r1 r2 j1 j2,
    heap m !! r1 = Some j1 → heap m !! r2 = Some j2 → id j1 = id j2 → r1 = r2;
  wf_timer : ∀ t cb, timers m !! t = Some cb →
    ∃ j, heap m !! callback_job cb = Some j ∧ id j = callback_id cb ∧
         timerId j = Some t ∧ state j = POLLING;
  wf_await : ∀ k c, awaits m !! k = Some c →
    ∃ j, heap m !! cont_job c = Some j ∧ id j = cont_id c ∧
         (state j = POLLING ∨ state j = ABORTED);
  wf_one_await : ∀ k1 k2 c1 c2,
    awaits m !! k1 = Some c1 → awaits m !! k2 = Some c2 →
    cont_job c1 = cont_job c2 → k1 = k2;
  wf_excl : ∀ t cb k c,
    timers m !! t = Some cb → awaits m !! k = Some c →
    callback_job cb ≠ cont_job c
}.

(** Nothing is pending for the job object [r]. *)
Definition idle (r : ObjRef) (m : Machine) : Prop :=
  (∀ t cb, timers m !! t = Some cb → callback_job cb ≠ r) ∧
  (∀ k c, awaits m !! k = Some c → cont_job c ≠ r).

(** The heap of [m'] differs from that of [m] at [r] only. *)
Definition heap_frame (r : ObjRef) (m m' : Machine) : Prop :=
  ∀ r0, r0 ≠ r → heap m' !! r0 = heap m !! r0.

(** The job object whose function or callback a call is made to. *)
Definition effect_job (e : Effect) : option ObjRef :=
  match e with
  | CallTrigger r | CallPoll r _ | CallComplete r _
  | CallOnComplete r _ | CallOnError r _ => Some r
  | UnhandledRejection _ => None
  end.

(** The job object whose task the event runs. *)
Definition event_job (e : Event) (m : Machine) : option ObjRef :=
  match e with
  | TimerFired t => callback_job <$> timers m !! t
  | TriggerSettled k _ | PollSettled k _ | CompleteSettled k _ =>
      cont_job <$> awaits m !! k
  end.

(** A call of a function or callback of [r], or a rejection that nobody
    handles, which belongs to no job. *)
Definition own_effect (r : ObjRef) (e : Effect) : Prop :=
  ∀ r', effect_job e = Some r' → r' = r.

(** What a task of the job object [r] leaves alone: [m'] has the registry of
    [m], its heap differs at [r] only, the timers and awaits of the other
    objects are those of [m], a timer that is new for [r] belongs to a
    registered job, and the calls made in between are calls to the functions
    of [r], besides the rejections that nobody handles. *)
Record frame (r : ObjRef) (m m' : Machine) : Prop := mk_frame {
  frame_jobs : jobs m' = jobs m;
  frame_heap : heap_frame r m m';
  frame_timers : ∀ t cb, callback_job cb ≠ r →
    timers m' !! t = Some cb ↔ timers m !! t = Some cb;
  frame_awaits : ∀ k c, cont_job c ≠ r →
    awaits m' !! k = Some c ↔ awaits m !! k = Some c;
  frame_own_timers : ∀ t cb, timers m' !! t = Some cb → callback_job cb = r →
    timers m !! t = Some cb ∨ jobs m' !! callback_id cb = Some r;
  frame_next_timer : (nextTimer m ≤ nextTimer m')%nat;
  frame_timerId : ∀ j', heap m' !! r = Some j' →
    ∃ j, heap m !! r = Some j ∧
         (timerId j' = timerId j ∨
          ∃ t, timerId j' = Some t ∧ (nextTimer m ≤ t < nextTimer m')%nat);
  frame_effects :
    ∃ l, effects m' = effects m ++ l ∧ Forall (own_effect r) l
}.

(** How a task of the job object [r] ends when it runs in [m]: normally, in a
    well-formed machine that differs from [m] for [r] only, or on a value the
    model does not cover. *)
Definition task_ends (r : ObjRef) (m : Machine)
    (res : Completion unit * Machine) : Prop :=
  (∃ m', res = (Normal (), m') ∧ well_formed m' ∧ frame r m m') ∨
  (∃ m', res = (Wrong, m')).

(** Something is pending for the job object [r]. *)
Definition busy (r : ObjRef) (m : Machine) : Prop :=
  (∃ t cb, timers m !! t = Some cb ∧ callback_job cb = r) ∨
  (∃ k c, awaits m !! k = Some c ∧ cont_job c = r).

(** The id that [generateJobId] returns is not the id of any job object. *)
Definition fresh_id (i : string) (m : Machine) : Prop :=
  ∀ r j, heap m !! r = Some j → id j ≠ i.

(** The job id an action generates, if any, is new. *)
Definition fresh_action (a : Action) (m : Machine) : Prop :=
  match a with
  | StartJob now random _ _ _ _ _ => fresh_id (generateJobId now random) m
  | _ => True
  end.

(** The machines a manager can be in: created by the constructor, then used
    through its public methods and driven by the event loop, with job ids that
    are never reused. *)
Inductive reachable : Machine → Prop :=
| reachable_new opts : reachable (new_manager opts)
| reachable_exec m a m' :
    reachable m → fresh_action a m → exec a m = Some m' → reachable m'.

(** ** Fixtures: a small manager and the functions of a job *)

Module Fixture.
Definition trigger : TriggerFn := λ _, Promise.
Definition poll : PollFn := λ _, Promise.
Definition complete : CompleteFn := λ _, Promise.
Definition quiet : JsValue → Outcome := λ _, Returns.
Definition quietE : JsError → Outcome := λ _, Returns.
Definition loud : JsValue → Outcome := λ _, Raises (VStr "callback error").
Definition loudE : JsError → Outcome := λ _, Raises (VStr "error callback error").

(** [new PollingServiceManager({ pollingInterval: 100, maxRetryAttempts: 2 })] *)
Definition manager : Machine :=
  new_manager (Some (mkOptions (Some 100) (Some 2) None)).

Definition jid : string := generateJobId 17 "k3x9q2a".

(** The job has been started and its trigger has resolved to ["trk-1"]:
    the first poll timer is pending. *)
Definition started : list Action :=
  [ StartJob 17 "k3x9q2a" trigger poll complete (Some quiet) (Some quietE);
    Env (TriggerSettled 0%nat (Fulfilled (VStr "trk-1"))) ].

Definition waiting : Machine := default manager (run started manager).

(** The job has been started and its trigger is in flight. *)
Definition triggering : Machine :=
  default manager
    (run [StartJob 17 "k3x9q2a" trigger poll complete (Some quiet) (Some quietE)]
         manager).

(** The job object of these runs, by the fields that change. *)
Definition record (st : JobState) (tr pr : JsValue) (rc : Z)
    (t : option TimerId) : Job :=
  mkJob jid st trigger poll complete (Some quiet) (Some quietE)
        tr pr VUndefined rc None t.

(** The timer has fired and [pollFn] is in flight. *)
Definition polling : Machine :=
  default manager (run (started ++ [Env (TimerFired 1%nat)]) manager).

(** A job whose callbacks both throw, at the point where [completeFn] is
    in flight after a poll that reported 42. *)
Definition completing : Machine :=
  default manager
    (run [ StartJob 17 "k3x9q2a" trigger poll complete (Some loud) (Some loudE);
           Env (TriggerSettled 0%nat (Fulfilled (VStr "trk-1")));
           Env (TimerFired 1%nat);
           Env (PollSettled 1%nat (Fulfilled (mkPollResponse true (VNum 42)))) ]
         manager).

Definition noisy (st : JobState) (tr pr : JsValue) (rc : Z)
    (t : option TimerId) : Job :=
  mkJob jid st trigger poll complete (Some loud) (Some loudE)
        tr pr VUndefined rc None t.



End Fixture.

(** * Proofs *)

(** ** How the methods run on a registered job *)

Ltac js_unfold :=
  unfold jobs_get, jobs_set, jobs_delete, store, load, try_catch,
    call_callback, call_async, emit, throw, async, suspend,
    catch_handler, evaluate,
    setTimeout, clearTimeout, new_object, get_options, awaited,
    with_heap, with_jobs, with_timers, with_awaits in *;
  unfold mbind, Js_bind, bind, mret, Js_ret, ret in *.

Ltac js_run :=
  repeat (cbn; rewrite ?lookup_insert_eq, ?insert_insert_eq).

Ltac js_with Hreg Hobj :=
  repeat (cbn; rewrite ?Hreg, ?Hobj, ?lookup_insert_eq, ?insert_insert_eq).

Ltac js_methods :=
  unfold step, run_task, host_call, startJob, abortJob, cleanupJob,
    executeJobTrigger, executeJobTrigger_resume, pollTick, pollTick_resume,
    executeJobCompletion, executeJobCompletion_resume, executeJobPolling,
    job_of, poll_calls in *.

Lemma handleJobError_run jobId e m job j :
  jobs m !! jobId = Some job →
  heap m !! job = Some j →
  handleJobError jobId e m = (Normal (), after_error job e j m).
Proof.
  intros Hreg Hobj. unfold handleJobError, after_error, onError_call. js_unfold.
  cbn. rewrite Hreg, Hobj. js_run.
  destruct (onError j) as [cb|]; cbn.
  - destruct (cb e); by destruct (instanceof_PollingAbortError e).
  - rewrite app_nil_r. by destruct (instanceof_PollingAbortError e).
Qed.

(** [handleJobError] on a job that the surrounding steps have just written. *)
Ltac js_error :=
  erewrite handleJobError_run;
  [ | cbn; eassumption
    | cbn; first [ apply lookup_insert_eq | eassumption ] ].

Lemma handleJobError_unregistered jobId e m :
  jobs m !! jobId = None → handleJobError jobId e m = (Normal (), m).
Proof. intros Hreg. unfold handleJobError. js_unfold. cbn. by rewrite Hreg. Qed.

Lemma abortJob_run jobId m job j :
  jobs m !! jobId = Some job →
  heap m !! job = Some j →
  abortJob jobId m = (Normal true, after_abort job j m).
Proof.
  intros Hreg Hobj. unfold abortJob, after_abort. js_unfold.
  cbn. rewrite Hreg, Hobj. by destruct (timerId j); js_run; rewrite Hobj.
Qed.

Lemma abortJob_unregistered jobId m :
  jobs m !! jobId = None → abortJob jobId m = (Normal false, m).
Proof. intros Hreg. unfold abortJob. js_unfold. cbn. by rewrite Hreg. Qed.

Lemma observed_state_job jobId m job j :
  jobs m !! jobId = Some job →
  heap m !! job = Some j →
  observed_state jobId m = Some (state j).
Proof.
  intros Hreg Hobj. unfold observed_state, getJobState. js_unfold.
  cbn. by rewrite Hreg, Hobj.
Qed.

Lemma observed_state_job_of jobId m j :
  job_of jobId m = Some j → observed_state jobId m = Some (state j).
Proof.
  unfold job_of. intros H.
  destruct (jobs m !! jobId) as [r|] eqn:Hr; [|discriminate].
  cbn in H. by eapply observed_state_job.
Qed.

(** ** abortJob *)

(** C6. [abortJob(jobId)] on an id that is not registered returns [false] and
    leaves the whole machine as it was.  On a registered job it returns
    [true], the job reads as ABORTED whatever its state was, the timer the job
    holds is no longer pending (so no timer of the job is, when the job's
    pending timers are the one it holds), no other timer is touched, and no
    call leaves the manager: neither [onError] nor [onComplete] runs. *)
Theorem abortJob_spec (jobId : string) (m : Machine) :
  (jobs m !! jobId = None → abortJob jobId m = (Normal false, m)) ∧
  (∀ job j,
     jobs m !! jobId = Some job →
     heap m !! job = Some j →
     ∃ m',
       abortJob jobId m = (Normal true, m') ∧
       observed_state jobId m' = Some ABORTED ∧
       (∀ t, timerId j = Some t → timers m' !! t = None) ∧
       (∀ t, timerId j ≠ Some t → timers m' !! t = timers m !! t) ∧
       ((∀ t cb, timers m !! t = Some cb → callback_job cb = job →
                 timerId j = Some t) →
        pending_timers job m' = ∅) ∧
       effects m' = effects m ∧
       jobs m' = jobs m ∧
       awaits m' = awaits m ∧
       (∀ r, r ≠ job → heap m' !! r = heap m !! r)).
Proof.
  split; [apply abortJob_unregistered|].
  intros job j Hreg Hobj. exists (after_abort job j m).
  split; [by apply abortJob_run|].
  split.
  { erewrite observed_state_job; [|exact Hreg|apply lookup_insert_eq]. done. }
  split.
  { intros t Ht. cbn. rewrite Ht. apply lookup_delete_eq. }
  split.
  { intros t Ht. cbn. destruct (timerId j) as [t'|]; [|done].
    apply lookup_delete_ne. congruence. }
  split.
  { intros Hown. unfold pending_timers. apply map_empty. intros t.
    apply map_lookup_filter_None. right. intros cb Hcb Hjob. cbn in *.
    destruct (timerId j) as [t'|] eqn:Ht'.
    - apply lookup_delete_Some in Hcb as [Hne Hcb].
      specialize (Hown t cb Hcb Hjob). congruence.
    - specialize (Hown t cb Hcb Hjob). congruence. }
  repeat split; try done.
  intros r Hr. cbn. by apply lookup_insert_ne.
Qed.

Lemma abortJob_spec_witness :
  abortJob "nobody" Fixture.waiting = (Normal false, Fixture.waiting) ∧
  ∃ m', abortJob Fixture.jid Fixture.waiting = (Normal true, m') ∧
        observed_state Fixture.jid m' = Some ABORTED ∧
        pending_timers 0%nat m' = ∅.
Proof.
  split.
  - apply (abortJob_spec "nobody" Fixture.waiting). reflexivity.
  - destruct (abortJob_spec Fixture.jid Fixture.waiting) as [_ H].
    destruct (H 0%nat
                (Fixture.record POLLING (VStr "trk-1") VUndefined 0 (Some 1%nat)))
      as (m' & Hrun & Hst & _ & _ & Hpend & _); [reflexivity | reflexivity |].
    exists m'. split; [exact Hrun|]. split; [exact Hst|].
    apply Hpend. intros t cb Hcb _.
    assert (timers Fixture.waiting = {[1%nat := PollTick Fixture.jid 0%nat]})
      as Htimers by reflexivity.
    rewrite Htimers in Hcb. apply lookup_singleton_Some in Hcb as [<- _].
    reflexivity.
Defined.

(** ** A poll that settles *)

(** C7. A poll response that says done but carries no result goes down the
    same path as one that says not done: the two runs of the timer callback
    are equal.  On a registered job in POLLING that path adds one to
    [retryCount], compares it with the ceiling and, below the ceiling,
    schedules the next poll; [completeFn] is not called and nothing waits for
    a completion.  So completion is entered only with the done flag set and a
    result present. *)
Theorem done_without_result_is_not_done (jobId : string) (job : ObjRef) (m : Machine) :
  (∀ r, not_done r →
        pollTick_resume jobId job (Fulfilled r) m
        = pollTick_resume jobId job (Fulfilled (mkPollResponse false VUndefined)) m) ∧
  (∀ j r,
     jobs m !! jobId = Some job →
     heap m !! job = Some j →
     state j = POLLING →
     not_done r →
     ∃ m',
       pollTick_resume jobId job (Fulfilled r) m = (Normal (), m') ∧
       awaits m' = awaits m ∧
       filter (λ e, is_CallComplete job e = true) (effects m')
       = filter (λ e, is_CallComplete job e = true) (effects m) ∧
       if retryCount j + 1 >? maxRetryAttempts (options m)
       then
         job_of jobId m'
         = Some (set_error (retry_ceiling_error m)
                   (set_state FAILED (set_retryCount (retryCount j + 1) j))) ∧
         timers m' = timers m
       else
         job_of jobId m'
         = Some (set_timerId (nextTimer m) (set_retryCount (retryCount j + 1) j)) ∧
         timers m' = <[nextTimer m := PollTick jobId job]> (timers m)).
Proof.
  unfold not_done. split.
  - intros r Hr. unfold pollTick_resume; js_unfold. cbn. by rewrite Hr.
  - intros j r Hreg Hobj Hst Hr.
    unfold pollTick_resume, executeJobPolling, catch_handler, handleJobError, retry_ceiling_error, job_of.
    unfold onError_call.
    js_unfold. cbn. rewrite Hr. js_with Hreg Hobj.
    destruct (retryCount j + 1 >? maxRetryAttempts (options m)).
    + js_with Hreg Hobj.
      destruct (onError j) as [cb|]; cbn.
      * match goal with |- context [cb ?e] => destruct (cb e) end.
        all: eexists; (split; [reflexivity|]).
        all: cbn; rewrite Hreg; cbn; rewrite lookup_insert_eq.
        all: split; [done|]; split; [|done].
        all: rewrite filter_app, filter_cons_False, filter_nil by done.
        all: by rewrite app_nil_r.
      * eexists. split; [reflexivity|].
        cbn. rewrite Hreg. cbn. rewrite lookup_insert_eq.
        repeat split; reflexivity.
    + js_with Hreg Hobj. rewrite Hst. js_with Hreg Hobj.
      eexists. split; [reflexivity|]. cbn. rewrite Hreg. cbn.
      by rewrite lookup_insert_eq.
Qed.

Lemma done_without_result_is_not_done_witness :
  pollTick_resume Fixture.jid 0%nat (Fulfilled (mkPollResponse true VUndefined))
    Fixture.polling
  = pollTick_resume Fixture.jid 0%nat (Fulfilled (mkPollResponse false VUndefined))
      Fixture.polling ∧
  ∃ m',
    pollTick_resume Fixture.jid 0%nat (Fulfilled (mkPollResponse true VUndefined))
      Fixture.polling = (Normal (), m') ∧
    job_of Fixture.jid m'
    = Some (Fixture.record POLLING (VStr "trk-1") VUndefined 1 (Some 2%nat)) ∧
    timers m' !! 2%nat = Some (PollTick Fixture.jid 0%nat).
Proof.
  destruct (done_without_result_is_not_done Fixture.jid 0%nat Fixture.polling)
    as [Hsame Hpath].
  split; [apply Hsame; reflexivity|].
  destruct (Hpath (Fixture.record POLLING (VStr "trk-1") VUndefined 0 (Some 1%nat))
              (mkPollResponse true VUndefined))
    as (m' & Hrun & _ & _ & Hjob & Htimers); [reflexivity..|].
  exists m'. split; [exact Hrun|]. split; [exact Hjob|].
  rewrite Htimers. reflexivity.
Defined.

Lemma poll_calls_onError job job' e j l :
  filter (λ x, is_CallPoll job x = true) (l ++ onError_call job' e j)
  = filter (λ x, is_CallPoll job x = true) l.
Proof.
  rewrite filter_app. unfold onError_call.
  destruct (onError j).
  - rewrite filter_cons_False by done. by rewrite filter_nil, app_nil_r.
  - by rewrite filter_nil, app_nil_r.
Qed.

(** ** A trigger result that is falsy *)

(** C10. When the trigger of a registered job in POLLING resolves to a falsy
    value [v] (0, the empty string, false, ...), the value is stored and the
    first poll timer is set; when that timer fires the job becomes FAILED with
    the PollingError 'Trigger result is undefined', [pollFn] has not been
    called, the only call that left the manager is the one to [onError], and
    neither a timer nor an await is left behind that could call [pollFn]
    later. *)
Theorem falsy_trigger_result_fails (jobId : string) (job : ObjRef) (m : Machine)
    (k : AwaitId) (j : Job) (v : JsValue) :
  awaits m !! k = Some (AwaitTrigger jobId job) →
  jobs m !! jobId = Some job →
  heap m !! job = Some j →
  state j = POLLING →
  truthy v = false →
  ∃ m1 m2,
    step (TriggerSettled k (Fulfilled v)) m = Some m1 ∧
    job_of jobId m1 = Some (set_timerId (nextTimer m) (set_triggerResult v j)) ∧
    timers m1 !! nextTimer m = Some (PollTick jobId job) ∧
    step (TimerFired (nextTimer m)) m1 = Some m2 ∧
    job_of jobId m2
    = Some (set_error (PollingError "Trigger result is undefined")
              (set_state FAILED
                 (set_timerId (nextTimer m) (set_triggerResult v j)))) ∧
    poll_calls job m2 = poll_calls job m ∧
    effects m2
    = effects m ++ onError_call job (PollingError "Trigger result is undefined") j ∧
    timers m2 = delete (nextTimer m) (timers m) ∧
    awaits m2 = delete k (awaits m).
Proof.
  intros Hk Hreg Hobj Hst Hv.
  eexists. eexists.
  split.
  { js_methods. rewrite Hk. js_unfold. js_with Hreg Hobj.
    rewrite Hst. js_with Hreg Hobj. reflexivity. }
  split.
  { js_methods. js_with Hreg Hobj. reflexivity. }
  split.
  { js_with Hreg Hobj. reflexivity. }
  split.
  { js_methods. js_unfold. js_with Hreg Hobj. rewrite Hv.
    js_with Hreg Hobj. js_error. reflexivity. }
  split.
  { js_methods. js_with Hreg Hobj. reflexivity. }
  split.
  { js_methods. cbn. by rewrite poll_calls_onError. }
  split; [reflexivity|]. cbn. by rewrite delete_insert_eq.
Qed.

Lemma falsy_trigger_result_fails_witness :
  ∃ m1 m2,
    step (TriggerSettled 0%nat (Fulfilled (VNum 0))) Fixture.triggering = Some m1 ∧
    step (TimerFired 1%nat) m1 = Some m2 ∧
    observed_state Fixture.jid m2 = Some FAILED ∧
    poll_calls 0%nat m2 = 0%nat.
Proof.
  destruct (falsy_trigger_result_fails Fixture.jid 0%nat Fixture.triggering 0%nat
              (Fixture.record POLLING VUndefined VUndefined 0 None) (VNum 0))
    as (m1 & m2 & H1 & _ & _ & H2 & Hjob & Hpolls & _); [reflexivity..|].
  exists m1, m2. split; [exact H1|]. split; [exact H2|].
  split; [|exact Hpolls].
  by rewrite (observed_state_job_of _ _ _ Hjob).
Defined.

(** ** Callbacks that throw *)

(** C9. If [onComplete] throws, the completion step still ends normally: the
    job stays COMPLETED with its final result, the only call made is the one
    to [onComplete], no promise is rejected and [onError] is not called.  If
    [onError] throws, [handleJobError] still returns normally and the job
    stays FAILED with its error. *)
Theorem callback_exceptions_are_contained :
  (∀ jobId job m k j v cb x,
     awaits m !! k = Some (AwaitComplete jobId job) →
     heap m !! job = Some j →
     onComplete j = Some cb →
     cb v = Raises x →
     ∃ m',
       executeJobCompletion_resume jobId job (Fulfilled v) m = (Normal (), m') ∧
       step (CompleteSettled k (Fulfilled v)) m = Some (with_awaits (delete k) m') ∧
       heap m' !! job = Some (set_state COMPLETED (set_finalResult v j)) ∧
       effects m' = effects m ++ [CallOnComplete job v]) ∧
  (∀ jobId e m job j cb x,
     jobs m !! jobId = Some job →
     heap m !! job = Some j →
     onError j = Some cb →
     cb e = Raises x →
     ∃ m',
       handleJobError jobId e m = (Normal (), m') ∧
       job_of jobId m' = Some (set_error e (set_state FAILED j)) ∧
       effects m' = effects m ++ [CallOnError job e]).
Proof.
  split.
  - intros jobId job m k j v cb x Hk Hobj Hcb Hx.
    eexists. split.
    { js_methods. js_unfold. js_with Hobj Hobj. rewrite Hcb. cbn.
      rewrite Hx. reflexivity. }
    split.
    { js_methods. rewrite Hk. js_unfold. js_with Hobj Hobj. rewrite Hcb. cbn.
      rewrite Hx. reflexivity. }
    split; [apply lookup_insert_eq | reflexivity].
  - intros jobId e m job j cb x Hreg Hobj Hcb Hx.
    exists (after_error job e j m).
    split; [by apply handleJobError_run|].
    split.
    + unfold job_of. cbn. rewrite Hreg. cbn. apply lookup_insert_eq.
    + cbn. unfold onError_call. by rewrite Hcb.
Qed.

Lemma callback_exceptions_are_contained_witness :
  (∃ m',
     executeJobCompletion_resume Fixture.jid 0%nat (Fulfilled (VStr "ok:42"))
       Fixture.completing = (Normal (), m') ∧
     ∃ j', heap m' !! 0%nat = Some j' ∧ state j' = COMPLETED) ∧
  (∃ m',
     handleJobError Fixture.jid (mkError PlainError "boom") Fixture.completing
     = (Normal (), m') ∧
     observed_state Fixture.jid m' = Some FAILED).
Proof.
  destruct callback_exceptions_are_contained as [Hc He]. split.
  - destruct (Hc Fixture.jid 0%nat Fixture.completing 2%nat
                (Fixture.noisy POLLING (VStr "trk-1") (VNum 42) 0 (Some 1%nat))
                (VStr "ok:42") Fixture.loud (VStr "callback error"))
      as (m' & Hrun & _ & Hjob & _); [reflexivity..|].
    exists m'. split; [exact Hrun|].
    eexists. split; [exact Hjob | reflexivity].
  - destruct (He Fixture.jid (mkError PlainError "boom") Fixture.completing 0%nat
                (Fixture.noisy POLLING (VStr "trk-1") (VNum 42) 0 (Some 1%nat))
                Fixture.loudE (VStr "error callback error"))
      as (m' & Hrun & Hjob & _); [reflexivity..|].
    exists m'. split; [exact Hrun|].
    by rewrite (observed_state_job_of _ _ _ Hjob).
Defined.

(** ** Stage functions that fail *)

Lemma truthy_is_defined v : truthy v = true → is_defined v = true.
Proof. by destruct v. Qed.






(** ** From POLLING to COMPLETED *)

(** A poll that reports done with a truthy result hands the result to
    [completeFn]; when that resolves, the job is COMPLETED, holds both results
    and [onComplete], if any, has been called with the final one. *)
Lemma poll_done_truthy_completes (jobId : string) (job : ObjRef) (m : Machine)
    (k : AwaitId) (j : Job) (u : JsValue) :
  awaits m !! k = Some (AwaitPoll jobId job) →
  jobs m !! jobId = Some job →
  heap m !! job = Some j →
  truthy u = true →
  completeFn j u = Promise →
  ∃ m1,
    step (PollSettled k (Fulfilled (mkPollResponse true u))) m = Some m1 ∧
    job_of jobId m1 = Some (set_pollResult u j) ∧
    awaits m1 !! nextAwait m = Some (AwaitComplete jobId job) ∧
    effects m1 = effects m ++ [CallComplete job u] ∧
    ∀ w, ∃ m2,
      step (CompleteSettled (nextAwait m) (Fulfilled w)) m1 = Some m2 ∧
      job_of jobId m2
      = Some (set_state COMPLETED (set_finalResult w (set_pollResult u j))) ∧
      effects m2 = effects m ++ CallComplete job u :: onComplete_call job w j.
Proof.
  intros Hk Hreg Hobj Hu Hc.
  eexists. split.
  { js_methods. rewrite Hk. js_unfold. js_with Hreg Hobj.
    rewrite (truthy_is_defined _ Hu). js_with Hreg Hobj.
    rewrite Hu. js_with Hreg Hobj. rewrite Hc. cbn. reflexivity. }
  split; [js_methods; by js_with Hreg Hobj|].
  split; [by js_with Hreg Hobj|].
  split; [reflexivity|].
  intros w. unfold onComplete_call.
  destruct (onComplete j) as [cb|] eqn:Hcb; [destruct (cb w) eqn:Hw|].
  all: eexists; split;
    [ js_methods; js_unfold; js_with Hreg Hobj; rewrite Hcb; cbn;
      rewrite ?Hw; reflexivity | ].
  all: js_methods; js_with Hreg Hobj; split; [reflexivity|].
  all: by rewrite <- ?app_assoc.
Qed.

(** A poll that reports done with a result that is defined but falsy (0, the
    empty string, false, null, NaN) stores it, and [executeJobCompletion] then
    fails the job without calling [completeFn]. *)
Lemma poll_done_falsy_fails (jobId : string) (job : ObjRef) (m : Machine)
    (k : AwaitId) (j : Job) (u : JsValue) :
  awaits m !! k = Some (AwaitPoll jobId job) →
  jobs m !! jobId = Some job →
  heap m !! job = Some j →
  is_defined u = true →
  truthy u = false →
  ∃ m1,
    step (PollSettled k (Fulfilled (mkPollResponse true u))) m = Some m1 ∧
    job_of jobId m1
    = Some (set_error (PollingError "Poll result is undefined")
              (set_state FAILED (set_pollResult u j))) ∧
    effects m1
    = effects m ++ onError_call job (PollingError "Poll result is undefined") j.
Proof.
  intros Hk Hreg Hobj Hd Hu.
  eexists. split.
  { js_methods. rewrite Hk. js_unfold. js_with Hreg Hobj.
    rewrite Hd. js_with Hreg Hobj. rewrite Hu. cbn.
    js_error. reflexivity. }
  split; [js_methods; by js_with Hreg Hobj | reflexivity].
Qed.

(** C1, at the input where the code departs from it.  The job of the fixture
    is in POLLING, its poll reports done with the result 0 and its
    [completeFn] would succeed on anything: the job ends FAILED with
    'Poll result is undefined', and neither [completeFn] nor [onComplete] is
    called. *)
Theorem poll_result_zero_fails :
  ∃ m',
    run (Fixture.started
           ++ [ Env (TimerFired 1%nat);
                Env (PollSettled 1%nat (Fulfilled (mkPollResponse true (VNum 0)))) ])
        Fixture.manager = Some m' ∧
    job_of Fixture.jid m'
    = Some (mkJob Fixture.jid FAILED Fixture.trigger Fixture.poll Fixture.complete
              (Some Fixture.quiet) (Some Fixture.quietE)
              (VStr "trk-1") (VNum 0) VUndefined 0
              (Some (PollingError "Poll result is undefined")) (Some 1%nat)) ∧
    effects m'
    = [ CallTrigger 0%nat; CallPoll 0%nat (VStr "trk-1");
        CallOnError 0%nat (PollingError "Poll result is undefined") ] ∧
    awaits m' = ∅ ∧ timers m' = ∅.
Proof. eexists. split; [vm_compute; reflexivity|]. repeat split. Qed.

(** ** Abort while a stage function is in flight *)

(** What does hold after an abort: [executeJobPolling] looks at the state,
    so a job that reads ABORTED gets no new timer, neither when its trigger
    resolves nor when a poll in flight reports not done below the ceiling; and
    the timer that [abortJob] cleared cannot fire. *)
Lemma aborted_job_gets_no_timer (jobId : string) (job : ObjRef) (m : Machine)
    (j : Job) :
  jobs m !! jobId = Some job →
  heap m !! job = Some j →
  state j = ABORTED →
  (∀ k v,
     awaits m !! k = Some (AwaitTrigger jobId job) →
     ∃ m', step (TriggerSettled k (Fulfilled v)) m = Some m' ∧
           timers m' = timers m ∧ effects m' = effects m) ∧
  (∀ k r,
     awaits m !! k = Some (AwaitPoll jobId job) →
     not_done r →
     retryCount j + 1 <= maxRetryAttempts (options m) →
     ∃ m', step (PollSettled k (Fulfilled r)) m = Some m' ∧
           timers m' = timers m ∧ effects m' = effects m).
Proof.
  intros Hreg Hobj Hst. split.
  - intros k v Hk. eexists. split.
    { js_methods. rewrite Hk. js_unfold. js_with Hreg Hobj.
      rewrite Hst. js_with Hreg Hobj. reflexivity. }
    done.
  - intros k r Hk Hr Hle. eexists. split.
    { js_methods. rewrite Hk. js_unfold. js_with Hreg Hobj.
      unfold not_done in Hr. rewrite Hr. js_with Hreg Hobj.
      replace (retryCount j + 1 >? maxRetryAttempts (options m)) with false by lia.
      js_with Hreg Hobj. rewrite Hst. js_with Hreg Hobj. reflexivity. }
    done.
Qed.

Lemma cleared_timer_cannot_fire (jobId : string) (job : ObjRef) (m : Machine)
    (j : Job) (t : TimerId) :
  jobs m !! jobId = Some job →
  heap m !! job = Some j →
  timerId j = Some t →
  step (TimerFired t) (abortJob jobId m).2 = None.
Proof.
  intros Hreg Hobj Ht. rewrite (abortJob_run _ _ _ _ Hreg Hobj).
  unfold step, after_abort. cbn. by rewrite Ht, lookup_delete_eq.
Qed.

(** C3, at the input where the code departs from it.  The job is aborted while
    its [pollFn] is in flight.  The poll then reports done with 42:
    [completeFn] is called, and when it resolves [onComplete] is called and the
    job reads COMPLETED. *)
Theorem abort_during_poll_still_completes :
  ∃ m_aborted m_end,
    run (Fixture.started ++ [ Env (TimerFired 1%nat); AbortJob Fixture.jid ])
        Fixture.manager = Some m_aborted ∧
    observed_state Fixture.jid m_aborted = Some ABORTED ∧
    effects m_aborted = [ CallTrigger 0%nat; CallPoll 0%nat (VStr "trk-1") ] ∧
    run [ Env (PollSettled 1%nat (Fulfilled (mkPollResponse true (VNum 42))));
          Env (CompleteSettled 2%nat (Fulfilled (VStr "ok:42"))) ]
        m_aborted = Some m_end ∧
    effects m_end
    = effects m_aborted
      ++ [ CallComplete 0%nat (VNum 42); CallOnComplete 0%nat (VStr "ok:42") ] ∧
    observed_state Fixture.jid m_end = Some COMPLETED.
Proof.
  eexists. eexists. split; [vm_compute; reflexivity|].
  split; [reflexivity|]. split; [reflexivity|].
  split; [vm_compute; reflexivity|].
  split; reflexivity.
Qed.

(** C5, at the input where the code departs from it.  The job is aborted while
    its trigger is in flight, so it is in the terminal state ABORTED; the
    trigger then rejects, and [handleJobError], an internal step, moves the
    job to FAILED and calls [onError]. *)
Theorem internal_step_leaves_aborted :
  ∃ m_aborted m_end,
    run [ AbortJob Fixture.jid ] Fixture.triggering = Some m_aborted ∧
    observed_state Fixture.jid m_aborted = Some ABORTED ∧
    step (TriggerSettled 0%nat (Rejected (VError (mkError PlainError "boom"))))
      m_aborted = Some m_end ∧
    observed_state Fixture.jid m_end = Some FAILED ∧
    effects m_end
    = effects m_aborted ++ [ CallOnError 0%nat (mkError PlainError "boom") ].
Proof.
  eexists. eexists. split; [vm_compute; reflexivity|].
  split; [reflexivity|]. split; [vm_compute; reflexivity|].
  split; reflexivity.
Qed.

(** ** From PENDING to POLLING *)

(** C4 fails as stated: when [startJob] returns, the trigger of the new job is
    still in flight and its result is unset, yet the job reads POLLING, not
    PENDING. *)
Lemma pending_until_trigger_success_counterexample :
  ∃ m',
    startJob 17 "k3x9q2a" Fixture.trigger Fixture.poll Fixture.complete
      (Some Fixture.quiet) (Some Fixture.quietE) Fixture.manager
    = (Normal Fixture.jid, m') ∧
    awaits m' !! 0%nat = Some (AwaitTrigger Fixture.jid 0%nat) ∧
    (triggerResult <$> job_of Fixture.jid m') = Some VUndefined ∧
    observed_state Fixture.jid m' = Some POLLING ∧
    observed_state Fixture.jid m' ≠ Some PENDING.
Proof.
  eexists. split; [vm_compute; reflexivity|].
  repeat split. discriminate.
Qed.

(** C4, amended.  [startJob] creates the job object in PENDING, and
    [executeJobTrigger], which it runs before it returns, sets POLLING and
    then calls the trigger: with the trigger in flight the job reads POLLING
    and its [triggerResult] is unset.  When the trigger resolves, its value is
    stored, the state is still POLLING and the first poll timer is set. *)
Theorem startJob_enters_polling :
  (∀ m jobId job j,
     jobs m !! jobId = Some job →
     heap m !! job = Some j →
     state j = PENDING →
     triggerFn j () = Promise →
     ∃ m',
       executeJobTrigger jobId m = (Normal (), m') ∧
       job_of jobId m' = Some (set_state POLLING j) ∧
       awaits m' !! nextAwait m = Some (AwaitTrigger jobId job)) ∧
  (∀ m now random tf pf cf oc oe,
     tf () = Promise →
     ∃ m',
       startJob now random tf pf cf oc oe m
       = (Normal (generateJobId now random), m') ∧
       job_of (generateJobId now random) m'
       = Some (mkJob (generateJobId now random) POLLING tf pf cf oc oe
                 VUndefined VUndefined VUndefined 0 None None) ∧
       observed_state (generateJobId now random) m' = Some POLLING ∧
       awaits m' !! nextAwait m
       = Some (AwaitTrigger (generateJobId now random) (nextRef m)) ∧
       timers m' = timers m ∧
       effects m' = effects m ++ [CallTrigger (nextRef m)]) ∧
  (∀ m k jobId job j v,
     awaits m !! k = Some (AwaitTrigger jobId job) →
     jobs m !! jobId = Some job →
     heap m !! job = Some j →
     state j = POLLING →
     ∃ m',
       step (TriggerSettled k (Fulfilled v)) m = Some m' ∧
       job_of jobId m' = Some (set_timerId (nextTimer m) (set_triggerResult v j)) ∧
       observed_state jobId m' = Some POLLING ∧
       timers m' !! nextTimer m = Some (PollTick jobId job)).
Proof.
  split.
  { intros m jobId job j Hreg Hobj Hst Htf.
    eexists. split.
    { js_methods. js_unfold. js_with Hreg Hobj. rewrite Htf. cbn. reflexivity. }
    split; [js_methods; by js_with Hreg Hobj | by js_with Hreg Hobj]. }
  split.
  { intros m now random tf pf cf oc oe Htf.
    eexists. split.
    { js_methods. js_unfold. js_run. rewrite Htf. cbn. reflexivity. }
    split; [js_methods; by js_run|].
    split.
    { etrans; [eapply observed_state_job; cbn; apply lookup_insert_eq|].
      reflexivity. }
    split; [by js_run|]. done. }
  intros m k jobId job j v Hk Hreg Hobj Hst.
  eexists. split.
  { js_methods. rewrite Hk. js_unfold. js_with Hreg Hobj.
    rewrite Hst. js_with Hreg Hobj. reflexivity. }
  split; [js_methods; by js_with Hreg Hobj|].
  split; [|by js_with Hreg Hobj].
  etrans; [eapply observed_state_job; cbn; [exact Hreg | apply lookup_insert_eq]|].
  cbn. by rewrite Hst.
Qed.

Lemma startJob_enters_polling_witness :
  (∃ m',
     startJob 17 "k3x9q2a" Fixture.trigger Fixture.poll Fixture.complete
       (Some Fixture.quiet) (Some Fixture.quietE) Fixture.manager
     = (Normal Fixture.jid, m') ∧
     observed_state Fixture.jid m' = Some POLLING) ∧
  (∃ m',
     step (TriggerSettled 0%nat (Fulfilled (VStr "trk-1"))) Fixture.triggering
     = Some m' ∧
     observed_state Fixture.jid m' = Some POLLING ∧
     timers m' !! 1%nat = Some (PollTick Fixture.jid 0%nat)).
Proof.
  destruct startJob_enters_polling as (_ & Hstart & Htrig). split.
  - destruct (Hstart Fixture.manager 17 "k3x9q2a" Fixture.trigger Fixture.poll
                Fixture.complete (Some Fixture.quiet) (Some Fixture.quietE))
      as (m' & Hrun & _ & Hobs & _); [reflexivity|].
    exists m'. split; [exact Hrun | exact Hobs].
  - destruct (Htrig Fixture.triggering 0%nat Fixture.jid 0%nat
                (Fixture.record POLLING VUndefined VUndefined 0 None) (VStr "trk-1"))
      as (m' & Hrun & _ & Hobs & Ht); [reflexivity..|].
    exists m'. split; [exact Hrun|]. split; [exact Hobs | exact Ht].
Defined.

(** ** The retry ceiling *)

Lemma poll_rounds_app job l1 l2 m :
  poll_rounds job (l1 ++ l2) m = poll_rounds job l1 m ≫= poll_rounds job l2.
Proof.
  revert m. induction l1 as [|r l1 IH]; intros m; cbn; [done|].
  destruct (poll_round job r m) as [m'|]; cbn; [apply IH | done].
Qed.

Section RetryCeiling.
Context (n : nat) (jobId : string) (job : ObjRef) (j0 : Job).
Hypothesis Hstate : state j0 = POLLING.
Hypothesis Htrigger : truthy (triggerResult j0) = true.
Hypothesis Hpoll : ∀ v, pollFn j0 v = Promise.

Lemma poll_round_below i t m r :
  polling_at n jobId job j0 i t m →
  (S i ≤ n)%nat →
  not_done r →
  ∃ m',
    poll_round job r m = Some m' ∧
    polling_at n jobId job j0 (S i) (nextTimer m) m' ∧
    effects m' = effects m ++ [CallPoll job (triggerResult j0)].
Proof using Hstate Htrigger Hpoll.
  intros (Hmax & Hreg & Hobj & Ht & Hown) Hi Hr.
  unfold poll_round. rewrite Hobj. cbn.
  js_methods. rewrite Ht. js_unfold. js_with Hreg Hobj.
  rewrite Htrigger, Hpoll. js_with Hreg Hobj.
  unfold not_done in Hr. rewrite Hr. js_with Hreg Hobj.
  rewrite Hmax.
  replace (Z.of_nat i + 1 >? Z.of_nat n) with false by lia.
  js_with Hreg Hobj. rewrite Hstate. js_with Hreg Hobj.
  eexists. split; [reflexivity|]. split; [|reflexivity].
  unfold polling_at. cbn. rewrite !lookup_insert_eq.
  split; [done|]. split; [done|].
  split.
  { f_equal. unfold set_timerId, set_retryCount. cbn. f_equal. lia. }
  split; [done|].
  intros t' cb Hcb Hjob.
  apply lookup_insert_Some in Hcb as [[? _]|[Hne Hcb]]; [done|].
  apply lookup_delete_Some in Hcb as [Hne' Hcb].
  by specialize (Hown t' cb Hcb Hjob).
Qed.

Lemma poll_round_at_ceiling t m r :
  polling_at n jobId job j0 n t m →
  not_done r →
  ∃ m',
    poll_round job r m = Some m' ∧
    job_of jobId m'
    = Some (set_error (retry_ceiling_error m)
              (set_state FAILED
                 (set_timerId t (set_retryCount (Z.of_nat (S n)) j0)))) ∧
    effects m'
    = effects m ++ CallPoll job (triggerResult j0)
        :: onError_call job (retry_ceiling_error m) j0 ∧
    pending_timers job m' = ∅ ∧
    awaits m' = delete (nextAwait m) (awaits m).
Proof using Hstate Htrigger Hpoll.
  intros (Hmax & Hreg & Hobj & Ht & Hown) Hr.
  unfold poll_round. rewrite Hobj. cbn.
  js_methods. rewrite Ht. js_unfold. js_with Hreg Hobj.
  rewrite Htrigger, Hpoll. js_with Hreg Hobj.
  unfold not_done in Hr. rewrite Hr. js_with Hreg Hobj.
  rewrite Hmax.
  replace (Z.of_nat n + 1 >? Z.of_nat n) with true by lia.
  js_with Hreg Hobj. js_error.
  eexists. split; [reflexivity|].
  unfold retry_ceiling_error. rewrite Hmax. js_with Hreg Hobj.
  split.
  { do 2 f_equal. unfold set_state, set_timerId, set_retryCount. cbn.
    f_equal. lia. }
  split; [by rewrite <- app_assoc|].
  split; [|by rewrite delete_insert_eq].
  unfold pending_timers. apply map_empty. intros t'.
  apply map_lookup_filter_None. right. intros cb Hcb Hjob. cbn in *.
  apply lookup_delete_Some in Hcb as [Hne Hcb].
  by specialize (Hown t' cb Hcb Hjob).
Qed.

(** Below the ceiling the job keeps polling: one call of [pollFn] per
    round, and a new timer after each. *)
Lemma poll_rounds_below resps : ∀ i t m,
  polling_at n jobId job j0 i t m →
  (i + length resps ≤ n)%nat →
  Forall not_done resps →
  ∃ m' t',
    poll_rounds job resps m = Some m' ∧
    polling_at n jobId job j0 (i + length resps) t' m' ∧
    effects m'
    = effects m ++ replicate (length resps) (CallPoll job (triggerResult j0)).
Proof using Hstate Htrigger Hpoll.
  induction resps as [|r rs IH]; intros i t m Hinv Hlen Hnd.
  - exists m, t. cbn. rewrite Nat.add_0_r, app_nil_r. done.
  - cbn in Hlen. apply Forall_cons in Hnd as [Hr Hrs].
    destruct (poll_round_below i t m r Hinv ltac:(lia) Hr)
      as (m1 & Hround & Hinv1 & Heff1).
    destruct (IH (S i) (nextTimer m) m1 Hinv1 ltac:(lia) Hrs)
      as (m' & t' & Hrounds & Hinv' & Heff').
    exists m', t'. cbn. rewrite Hround. cbn.
    split; [exact Hrounds|].
    split; [by replace (i + S (length rs))%nat with (S i + length rs)%nat by lia|].
    rewrite Heff', Heff1, <- app_assoc. done.
Qed.

(** The round that reaches the ceiling, after [n] rounds below it. *)
Lemma poll_rounds_to_ceiling resps t m :
  polling_at n jobId job j0 0 t m →
  length resps = S n →
  Forall not_done resps →
  ∃ m' t',
    poll_rounds job resps m = Some m' ∧
    job_of jobId m'
    = Some (set_error (retry_ceiling_error m)
              (set_state FAILED
                 (set_timerId t' (set_retryCount (Z.of_nat (S n)) j0)))) ∧
    effects m'
    = effects m ++ replicate (S n) (CallPoll job (triggerResult j0))
        ++ onError_call job (retry_ceiling_error m) j0 ∧
    pending_timers job m' = ∅.
Proof using Hstate Htrigger Hpoll.
  intros Hinv Hlen Hnd.
  destruct (exists_last (l:=resps)) as (rs & r & ->).
  { by intros ->. }
  rewrite length_app in Hlen. cbn in Hlen.
  apply Forall_app in Hnd as [Hrs Hr]. apply Forall_cons in Hr as [Hr _].
  destruct (poll_rounds_below rs 0%nat t m Hinv ltac:(lia) Hrs)
    as (m1 & t1 & Hrounds & Hinv1 & Heff1).
  replace (0 + length rs)%nat with n in Hinv1 by lia.
  destruct (poll_round_at_ceiling t1 m1 r Hinv1 Hr)
    as (m' & Hround & Hjob & Heff & Hpend & _).
  assert (retry_ceiling_error m1 = retry_ceiling_error m) as Herr.
  { unfold retry_ceiling_error. destruct Hinv as [-> _], Hinv1 as [-> _]. done. }
  rewrite Herr in *.
  exists m', t1. split.
  { rewrite poll_rounds_app, Hrounds. cbn. by rewrite Hround. }
  split; [exact Hjob|]. split; [|exact Hpend].
  rewrite Heff, Heff1.
  replace (S n) with (length rs + 1)%nat by lia.
  rewrite replicate_add, <- !app_assoc. done.
Qed.
End RetryCeiling.

Lemma poll_calls_replicate job v l k tl :
  Forall (λ e, is_CallPoll job e = false) tl →
  length (filter (λ e, is_CallPoll job e = true)
            (l ++ replicate k (CallPoll job v) ++ tl))
  = (length (filter (λ e, is_CallPoll job e = true) l) + k)%nat.
Proof.
  intros Htl. rewrite !filter_app, !length_app.
  assert (filter (λ e, is_CallPoll job e = true) tl = []) as ->.
  { induction tl as [|e tl IH]; [done|].
    apply Forall_cons in Htl as [He Htl].
    rewrite filter_cons_False by (by rewrite He). by apply IH. }
  assert (filter (λ e, is_CallPoll job e = true) (replicate k (CallPoll job v))
          = replicate k (CallPoll job v)) as ->.
  { induction k as [|k IH]; [done|]. cbn [replicate].
    rewrite filter_cons_True; [by rewrite IH|].
    cbn. by rewrite bool_decide_eq_true. }
  rewrite length_replicate. cbn. lia.
Qed.

(** C2, at the input where the code departs from it.  The manager allows two
    retries and nothing interferes with the job, but its trigger resolved to
    the empty string.  When the first poll timer fires, the guard
    [if (!job.triggerResult)] throws 'Trigger result is undefined': the job
    ends FAILED without a single call of [pollFn], where the claim has three,
    and its error is not the one of the retry ceiling.  No timer is left, so
    the poll function is never asked at all. *)
Theorem falsy_trigger_result_is_never_polled :
  ∃ m',
    run [ StartJob 17 "k3x9q2a" Fixture.trigger Fixture.poll Fixture.complete
            (Some Fixture.quiet) (Some Fixture.quietE);
          Env (TriggerSettled 0%nat (Fulfilled (VStr "")));
          Env (TimerFired 1%nat) ]
        Fixture.manager = Some m' ∧
    maxRetryAttempts (options m') = 2 ∧
    job_of Fixture.jid m'
    = Some (mkJob Fixture.jid FAILED Fixture.trigger Fixture.poll Fixture.complete
              (Some Fixture.quiet) (Some Fixture.quietE)
              (VStr "") VUndefined VUndefined 0
              (Some (PollingError "Trigger result is undefined")) (Some 1%nat)) ∧
    poll_calls 0%nat m' = 0%nat ∧
    effects m'
    = [ CallTrigger 0%nat;
        CallOnError 0%nat (PollingError "Trigger result is undefined") ] ∧
    timers m' = ∅ ∧ awaits m' = ∅.
Proof. eexists. split; [vm_compute; reflexivity|]. repeat split. Qed.

(** The retry ceiling, for a trigger result that is truthy.  A manager has
    [maxRetryAttempts = n]; a registered job is in POLLING
    with a usable trigger result, no retries yet and its first timer pending,
    and its [pollFn] answers every call with a response that is not done.
    While at most [n] rounds have passed the job is still POLLING with a timer
    pending.  After round [n + 1] it is FAILED with the synthesized error
    'Exceeded maximum retry attempts (n)'; [pollFn] has been called exactly
    [n + 1] times, then [onError] once, and no timer is pending for the job. *)
Theorem retry_ceiling (n : nat) (jobId : string) (job : ObjRef) (m : Machine)
    (j : Job) (t : TimerId) :
  maxRetryAttempts (options m) = Z.of_nat n →
  jobs m !! jobId = Some job →
  heap m !! job = Some j →
  state j = POLLING →
  truthy (triggerResult j) = true →
  retryCount j = 0 →
  timerId j = Some t →
  timers m !! t = Some (PollTick jobId job) →
  (∀ t' cb, timers m !! t' = Some cb → callback_job cb = job → t' = t) →
  (∀ v, pollFn j v = Promise) →
  (∀ resps,
     Forall not_done resps →
     (length resps ≤ n)%nat →
     ∃ m' t',
       poll_rounds job resps m = Some m' ∧
       observed_state jobId m' = Some POLLING ∧
       poll_calls job m' = (poll_calls job m + length resps)%nat ∧
       timers m' !! t' = Some (PollTick jobId job)) ∧
  (∀ resps,
     Forall not_done resps →
     length resps = S n →
     ∃ m' j',
       poll_rounds job resps m = Some m' ∧
       job_of jobId m' = Some j' ∧
       state j' = FAILED ∧
       error j'
       = Some (PollingError ("Exceeded maximum retry attempts ("
                               +:+ pretty (Z.of_nat n) +:+ ")")) ∧
       retryCount j' = Z.of_nat (S n) ∧
       poll_calls job m' = (poll_calls job m + S n)%nat ∧
       effects m'
       = effects m ++ replicate (S n) (CallPoll job (triggerResult j))
           ++ onError_call job
                (PollingError ("Exceeded maximum retry attempts ("
                                 +:+ pretty (Z.of_nat n) +:+ ")")) j ∧
       pending_timers job m' = ∅).
Proof.
  intros Hmax Hreg Hobj Hst Htr Hrc Ht Htimer Hown Hpoll.
  assert (polling_at n jobId job j 0 t m) as Hinv.
  { unfold polling_at. repeat split; try done.
    rewrite Hobj. f_equal. destruct j; cbn in *. by subst. }
  split.
  - intros resps Hnd Hlen.
    destruct (poll_rounds_below n jobId job j Hst Htr Hpoll resps 0%nat t m
                Hinv ltac:(lia) Hnd)
      as (m' & t' & Hrounds & (_ & Hreg' & Hobj' & Ht' & _) & Heff).
    exists m', t'. split; [exact Hrounds|].
    split.
    { erewrite observed_state_job; [|exact Hreg'|exact Hobj']. cbn. by rewrite Hst. }
    split; [|exact Ht'].
    unfold poll_calls. rewrite Heff.
    rewrite <- (app_nil_r (replicate _ _)). by apply poll_calls_replicate.
  - intros resps Hnd Hlen.
    destruct (poll_rounds_to_ceiling n jobId job j Hst Htr Hpoll resps t m
                Hinv Hlen Hnd)
      as (m' & t' & Hrounds & Hjob & Heff & Hpend).
    unfold retry_ceiling_error in *. rewrite Hmax in *.
    eexists m', _. split; [exact Hrounds|]. split; [exact Hjob|].
    split; [done|]. split; [done|]. split; [done|].
    split; [|split; [exact Heff | exact Hpend]].
    unfold poll_calls. rewrite Heff. apply poll_calls_replicate.
    unfold onError_call. destruct (onError j); by repeat constructor.
Qed.

Lemma retry_ceiling_witness :
  (∃ m', poll_rounds 0%nat (replicate 2 (mkPollResponse false VUndefined))
           Fixture.waiting = Some m' ∧
         observed_state Fixture.jid m' = Some POLLING ∧
         poll_calls 0%nat m' = 2%nat) ∧
  (∃ m', poll_rounds 0%nat (replicate 3 (mkPollResponse false VUndefined))
           Fixture.waiting = Some m' ∧
         observed_state Fixture.jid m' = Some FAILED ∧
         poll_calls 0%nat m' = 3%nat ∧
         pending_timers 0%nat m' = ∅).
Proof.
  assert (∀ k, Forall not_done (replicate k (mkPollResponse false VUndefined)))
    as Hnd by (intros k; apply Forall_replicate; reflexivity).
  destruct (retry_ceiling 2 Fixture.jid 0%nat Fixture.waiting
              (Fixture.record POLLING (VStr "trk-1") VUndefined 0 (Some 1%nat))
              1%nat)
    as [Hbelow Hceil]; try reflexivity.
  { intros t' cb Hcb _.
    assert (timers Fixture.waiting = {[1%nat := PollTick Fixture.jid 0%nat]})
      as Htimers by reflexivity.
    rewrite Htimers in Hcb. by apply lookup_singleton_Some in Hcb as [<- _]. }
  split.
  - destruct (Hbelow _ (Hnd 2%nat)) as (m' & t' & Hrun & Hobs & Hcalls & _);
      [cbn; lia|].
    exists m'. split; [exact Hrun|]. split; [exact Hobs | exact Hcalls].
  - destruct (Hceil _ (Hnd 3%nat))
      as (m' & j' & Hrun & Hjob & Hst & _ & _ & Hcalls & _ & Hpend);
      [reflexivity|].
    exists m'. split; [exact Hrun|].
    split; [by rewrite (observed_state_job_of _ _ _ Hjob), Hst|].
    split; [exact Hcalls | exact Hpend].
Defined.

(** ** What holds in every reachable machine *)

Lemma wf_touch m m' r j j' :
  well_formed m →
  heap m !! r = Some j →
  heap m' !! r = Some j' →
  heap_frame r m m' →
  id j' = id j →
  (∀ i r0, jobs m' !! i = Some r0 → jobs m !! i = Some r0) →
  nextRef m' = nextRef m →
  (∀ t cb, timers m' !! t = Some cb →
     (callback_job cb ≠ r ∧ timers m !! t = Some cb ∧ (t < nextTimer m')%nat) ∨
     (callback_job cb = r ∧ callback_id cb = id j ∧ (t < nextTimer m')%nat ∧
      timerId j' = Some t ∧ state j' = POLLING)) →
  (∀ k c, awaits m' !! k = Some c →
     (cont_job c ≠ r ∧ awaits m !! k = Some c ∧ (k < nextAwait m')%nat) ∨
     (cont_job c = r ∧ cont_id c = id j ∧ (k < nextAwait m')%nat ∧
      (state j' = POLLING ∨ state j' = ABORTED))) →
  (∀ k1 k2 c1 c2, awaits m' !! k1 = Some c1 → awaits m' !! k2 = Some c2 →
     cont_job c1 = r → cont_job c2 = r → k1 = k2) →
  (∀ t cb k c, timers m' !! t = Some cb → awaits m' !! k = Some c →
     callback_job cb = r → cont_job c = r → False) →
  well_formed m'.
Proof.
  intros Hwf Hobj Hobj' Hframe Hid Hjobs Hnext Htimers Hawaits Hone Hexcl.
  assert (∀ r0 j0, heap m' !! r0 = Some j0 →
            ∃ j1, heap m !! r0 = Some j1 ∧ id j1 = id j0) as Hback.
  { intros r0 j0 H0. destruct (decide (r0 = r)) as [->|Hne].
    - exists j. split; [done|]. congruence.
    - exists j0. by rewrite <- Hframe. }
  assert (∀ r0 j0, r0 ≠ r → heap m !! r0 = Some j0 → heap m' !! r0 = Some j0) as Hfwd.
  { intros r0 j0 Hne H0. by rewrite Hframe. }
  constructor.
  - intros r0 j0 H0. destruct (Hback _ _ H0) as (j1 & H1 & _).
    rewrite Hnext. by eapply wf_heap_lt.
  - intros t cb H. by destruct (Htimers _ _ H) as [(_ & _ & ?)|(_ & _ & ? & _)].
  - intros k c H. by destruct (Hawaits _ _ H) as [(_ & _ & ?)|(_ & _ & ? & _)].
  - intros i r0 H. apply Hjobs in H.
    destruct (wf_registry _ Hwf _ _ H) as (j0 & H0 & Hi).
    destruct (decide (r0 = r)) as [->|Hne].
    + exists j'. split; [done|]. congruence.
    + exists j0. split; [by apply Hfwd | done].
  - intros r1 r2 j1 j2 H1 H2 Heq.
    destruct (Hback _ _ H1) as (j1' & H1' & Hid1).
    destruct (Hback _ _ H2) as (j2' & H2' & Hid2).
    eapply (wf_ids _ Hwf); [exact H1' | exact H2' | congruence].
  - intros t cb H. destruct (Htimers _ _ H) as [(Hne & Hold & _)|(Heq & Hcid & _ & Ht & Hst)].
    + destruct (wf_timer _ Hwf _ _ Hold) as (j0 & H0 & ?).
      exists j0. split; [by apply Hfwd | done].
    + exists j'. rewrite Heq. split; [done|]. split; [congruence | done].
  - intros k c H. destruct (Hawaits _ _ H) as [(Hne & Hold & _)|(Heq & Hcid & _ & Hst)].
    + destruct (wf_await _ Hwf _ _ Hold) as (j0 & H0 & ?).
      exists j0. split; [by apply Hfwd | done].
    + exists j'. rewrite Heq. split; [done|]. split; [congruence | done].
  - intros k1 k2 c1 c2 H1 H2 Heq.
    destruct (Hawaits _ _ H1) as [(Hne1 & Hold1 & _)|(Heq1 & _)];
      destruct (Hawaits _ _ H2) as [(Hne2 & Hold2 & _)|(Heq2 & _)].
    + by eapply (wf_one_await _ Hwf).
    + congruence.
    + congruence.
    + by eapply Hone.
  - intros t cb k c H1 H2 Heq.
    destruct (Htimers _ _ H1) as [(Hne1 & Hold1 & _)|(Heq1 & _)];
      destruct (Hawaits _ _ H2) as [(Hne2 & Hold2 & _)|(Heq2 & _)].
    + by eapply (wf_excl _ Hwf).
    + congruence.
    + congruence.
    + by eapply Hexcl.
Qed.

(** A closure finds its own job object in the registry, if any. *)
Lemma closure_registry m r j r' :
  well_formed m → heap m !! r = Some j → jobs m !! id j = Some r' → r' = r.
Proof.
  intros Hwf Hobj Hreg.
  destruct (wf_registry _ Hwf _ _ Hreg) as (j' & Hobj' & Hid).
  by eapply (wf_ids _ Hwf).
Qed.

(** Once its timer has fired, the job has nothing pending. *)
Lemma wf_drop_timer m t cb :
  well_formed m → timers m !! t = Some cb →
  well_formed (with_timers (delete t) m) ∧ idle (callback_job cb) (with_timers (delete t) m).
Proof.
  intros Hwf Ht. split.
  - constructor; cbn.
    + apply (wf_heap_lt _ Hwf).
    + intros t' cb' [_ H]%lookup_delete_Some. by eapply wf_timer_lt.
    + apply (wf_await_lt _ Hwf).
    + apply (wf_registry _ Hwf).
    + apply (wf_ids _ Hwf).
    + intros t' cb' [_ H]%lookup_delete_Some. by eapply wf_timer.
    + apply (wf_await _ Hwf).
    + apply (wf_one_await _ Hwf).
    + intros t' cb' k c [_ H]%lookup_delete_Some. by eapply wf_excl.
  - split; cbn.
    + intros t' cb' [Hne H]%lookup_delete_Some Heq.
      destruct (wf_timer _ Hwf _ _ Ht) as (j & Hj & _ & Htj & _).
      destruct (wf_timer _ Hwf _ _ H) as (j' & Hj' & _ & Htj' & _).
      rewrite Heq in Hj'. congruence.
    + intros k c H Heq. by eapply (wf_excl _ Hwf).
Qed.

(** Once its promise has settled, the job has nothing pending. *)
Lemma wf_drop_await m k c :
  well_formed m → awaits m !! k = Some c →
  well_formed (with_awaits (delete k) m) ∧ idle (cont_job c) (with_awaits (delete k) m).
Proof.
  intros Hwf Hk. split.
  - constructor; cbn.
    + apply (wf_heap_lt _ Hwf).
    + apply (wf_timer_lt _ Hwf).
    + intros k' c' [_ H]%lookup_delete_Some. by eapply wf_await_lt.
    + apply (wf_registry _ Hwf).
    + apply (wf_ids _ Hwf).
    + apply (wf_timer _ Hwf).
    + intros k' c' [_ H]%lookup_delete_Some. by eapply wf_await.
    + intros k1 k2 c1 c2 [_ H1]%lookup_delete_Some [_ H2]%lookup_delete_Some.
      by eapply wf_one_await.
    + intros t cb k' c' H [_ H']%lookup_delete_Some. by eapply wf_excl.
  - split; cbn.
    + intros t cb H Heq. by eapply (wf_excl _ Hwf).
    + intros k' c' [Hne H]%lookup_delete_Some Heq.
      apply Hne. symmetry. by eapply (wf_one_await _ Hwf).
Qed.

Section Idle.
Context (m m' : Machine) (r : ObjRef) (j j' : Job).
Hypothesis Hwf : well_formed m.
Hypothesis Hidle : idle r m.
Hypothesis Hobj : heap m !! r = Some j.
Hypothesis Hobj' : heap m' !! r = Some j'.
Hypothesis Hframe : heap_frame r m m'.
Hypothesis Hid : id j' = id j.
Hypothesis Hjobs : jobs m' = jobs m.
Hypothesis Hnext : nextRef m' = nextRef m.

(** The job stays without anything pending. *)
Lemma wf_idle_none :
  timers m' = timers m → nextTimer m' = nextTimer m →
  awaits m' = awaits m → nextAwait m' = nextAwait m →
  well_formed m' ∧ idle r m'.
Proof using All.
  intros HT HnT HA HnA. destruct Hidle as [Hit Hia]. split.
  - eapply wf_touch; try done.
    + by rewrite Hjobs.
    + rewrite HT, HnT. intros t cb H. left.
      split; [by eapply Hit|]. split; [done | by eapply wf_timer_lt].
    + rewrite HA, HnA. intros k c H. left.
      split; [by eapply Hia|]. split; [done | by eapply wf_await_lt].
    + rewrite HA. intros k1 k2 c1 c2 H1 _ Heq. by destruct (Hia _ _ H1).
    + rewrite HT. intros t cb k c H1 _ Heq. by destruct (Hit _ _ H1).
  - unfold idle. by rewrite HT, HA.
Qed.

(** The job gets its next poll timer. *)
Lemma wf_idle_timer :
  timers m' = <[nextTimer m := PollTick (id j) r]> (timers m) →
  nextTimer m' = S (nextTimer m) →
  awaits m' = awaits m → nextAwait m' = nextAwait m →
  timerId j' = Some (nextTimer m) → state j' = POLLING →
  well_formed m'.
Proof using All.
  intros HT HnT HA HnA Htid Hst. destruct Hidle as [Hit Hia].
  eapply wf_touch; try done.
  - by rewrite Hjobs.
  - rewrite HT, HnT. intros t cb [[<- <-]|[Hne H]]%lookup_insert_Some.
    + right. repeat split; try done. lia.
    + left. split; [by eapply Hit|]. split; [done|].
      apply (wf_timer_lt _ Hwf) in H. lia.
  - rewrite HA, HnA. intros k c H. left.
    split; [by eapply Hia|]. split; [done | by eapply wf_await_lt].
  - rewrite HA. intros k1 k2 c1 c2 H1 _ Heq. by destruct (Hia _ _ H1).
  - rewrite HA. intros t cb k c _ H2 _ Heq. by destruct (Hia _ _ H2).
Qed.

(** The job starts waiting for a promise. *)
Lemma wf_idle_await c :
  awaits m' = <[nextAwait m := c]> (awaits m) →
  nextAwait m' = S (nextAwait m) →
  cont_job c = r → cont_id c = id j →
  timers m' = timers m → nextTimer m' = nextTimer m →
  state j' = POLLING ∨ state j' = ABORTED →
  well_formed m'.
Proof using All.
  intros HA HnA Hcj Hci HT HnT Hst. destruct Hidle as [Hit Hia].
  assert (∀ k c', awaits m' !! k = Some c' → cont_job c' = r → k = nextAwait m)
    as Hmine.
  { rewrite HA. intros k c' [[<- _]|[Hne H]]%lookup_insert_Some Heq; [done|].
    by destruct (Hia _ _ H). }
  eapply wf_touch; try done.
  - by rewrite Hjobs.
  - rewrite HT, HnT. intros t cb H. left.
    split; [by eapply Hit|]. split; [done | by eapply wf_timer_lt].
  - rewrite HA, HnA. intros k c' [[<- <-]|[Hne H]]%lookup_insert_Some.
    + right. repeat split; try done. lia.
    + left. split; [by eapply Hia|]. split; [done|].
      apply (wf_await_lt _ Hwf) in H. lia.
  - intros k1 k2 c1 c2 H1 H2 Heq1 Heq2.
    rewrite (Hmine _ _ H1 Heq1), (Hmine _ _ H2 Heq2). done.
  - rewrite HT. intros t cb k c' H1 _ Heq. by destruct (Hit _ _ H1).
Qed.
End Idle.

#[local] Arguments handleJobError : simpl never.
#[local] Arguments executeJobPolling : simpl never.
#[local] Arguments executeJobCompletion : simpl never.

(** The calls in the list are calls of [r]. *)
Ltac own_effects :=
  repeat (apply Forall_cons; split; [intros ? [=]; congruence|]);
  by apply Forall_nil.

Lemma frame_trans r m1 m2 m3 : frame r m1 m2 → frame r m2 m3 → frame r m1 m3.
Proof.
  intros [Hj12 H12 Ht12 Ha12 Ho12 Hn12 Hi12 (l12 & He12 & Hl12)]
    [Hj23 H23 Ht23 Ha23 Ho23 Hn23 Hi23 (l23 & He23 & Hl23)].
  constructor.
  - congruence.
  - intros r0 Hne. by rewrite H23, H12.
  - intros t cb Hne. by rewrite Ht23, Ht12.
  - intros k c Hne. by rewrite Ha23, Ha12.
  - intros t cb H Heq. destruct (Ho23 _ _ H Heq) as [H2|H2]; [|by right].
    destruct (Ho12 _ _ H2 Heq) as [H1|H1]; [by left|].
    right. by rewrite Hj23.
  - lia.
  - intros j3 H3. destruct (Hi23 _ H3) as (j2 & H2 & Hid23).
    destruct (Hi12 _ H2) as (j1 & H1 & Hid12). exists j1. split; [done|].
    destruct Hid23 as [Heq|(t & Ht & ?)].
    + destruct Hid12 as [Heq'|(t & Ht & ?)]; [left; congruence|].
      right. exists t. split; [congruence | lia].
    + right. exists t. split; [done | lia].
  - exists (l12 ++ l23). split; [by rewrite He23, He12, app_assoc|].
    by apply Forall_app.
Qed.

(** A step that leaves the registry, the timers and the awaits as they are. *)
Lemma frame_quiet r m m' l :
  jobs m' = jobs m → heap_frame r m m' →
  (∀ j', heap m' !! r = Some j' →
         ∃ j, heap m !! r = Some j ∧ timerId j' = timerId j) →
  timers m' = timers m → nextTimer m' = nextTimer m → awaits m' = awaits m →
  effects m' = effects m ++ l → Forall (own_effect r) l →
  frame r m m'.
Proof.
  intros Hj Hh Hi Ht Hn Ha He Hl. constructor; try done.
  - intros t cb _. by rewrite Ht.
  - intros k c _. by rewrite Ha.
  - intros t cb H _. left. by rewrite <- Ht.
  - lia.
  - intros j' H'. destruct (Hi _ H') as (j & H & Heq). exists j. by split; [|left].
  - by exists l.
Qed.

Lemma frame_refl r m : frame r m m.
Proof.
  apply (frame_quiet r m m []); try done; [|by rewrite app_nil_r].
  intros j' H'. by exists j'.
Qed.

(** Writing fields of a job with nothing pending, and logging calls. *)
Lemma wf_store m r j j2 l :
  well_formed m → idle r m → heap m !! r = Some j → id j2 = id j →
  timerId j2 = timerId j →
  Forall (own_effect r) l →
  let m2 := mkMachine (jobs m) (options m) (<[r := j2]> (heap m)) (nextRef m)
              (timers m) (nextTimer m) (awaits m) (nextAwait m)
              (effects m ++ l) in
  well_formed m2 ∧ idle r m2 ∧ frame r m m2.
Proof.
  intros Hwf Hidle Hobj Hid Htid Hl m2.
  assert (heap_frame r m m2) as Hheap.
  { intros r0 Hne. by apply lookup_insert_ne. }
  assert (frame r m m2) as Hframe.
  { apply (frame_quiet r m m2 l); try done.
    intros j' H'. exists j. split; [done|].
    cbn in H'. rewrite lookup_insert_eq in H'. congruence. }
  destruct (wf_idle_none m m2 r j j2) as [Hwf2 Hidle2];
    [done | done | done | apply lookup_insert_eq | done..|].
  done.
Qed.

Lemma wf_emit m r j l :
  well_formed m → idle r m → heap m !! r = Some j →
  Forall (own_effect r) l →
  let m2 := mkMachine (jobs m) (options m) (heap m) (nextRef m)
              (timers m) (nextTimer m) (awaits m) (nextAwait m)
              (effects m ++ l) in
  well_formed m2 ∧ idle r m2 ∧ frame r m m2.
Proof.
  intros Hwf Hidle Hobj Hl m2.
  destruct (wf_idle_none m m2 r j j) as [Hwf2 Hidle2]; try done.
  split; [done|]. split; [done|]. apply (frame_quiet r m m2 l); try done.
  intros j' H'. by exists j'.
Qed.

Lemma wf_store_quiet m r j j2 :
  well_formed m → idle r m → heap m !! r = Some j → id j2 = id j →
  timerId j2 = timerId j →
  let m2 := mkMachine (jobs m) (options m) (<[r := j2]> (heap m)) (nextRef m)
              (timers m) (nextTimer m) (awaits m) (nextAwait m) (effects m) in
  well_formed m2 ∧ idle r m2 ∧ frame r m m2.
Proof.
  intros Hwf Hidle Hobj Hid Htid.
  pose proof (wf_store m r j j2 [] Hwf Hidle Hobj Hid Htid ltac:(done)) as H.
  cbn in H. by rewrite app_nil_r in H.
Qed.

Lemma frame_await m r c E :
  well_formed m →
  cont_job c = r →
  Forall (own_effect r) E →
  frame r m (mkMachine (jobs m) (options m) (heap m) (nextRef m) (timers m)
               (nextTimer m) (<[nextAwait m := c]> (awaits m))
               (S (nextAwait m)) (effects m ++ E)).
Proof.
  intros Hwf Hc HE. constructor; cbn; try done.
  - intros k c' Hne. rewrite lookup_insert_Some. split.
    + by intros [[_ <-]|[_ H]].
    + intros H. right. split; [|done].
      apply (wf_await_lt _ Hwf) in H. lia.
  - intros t cb H _. by left.
  - intros j' H'. exists j'. by split; [|left].
  - by exists E.
Qed.

Lemma handleJobError_idle m r j e :
  well_formed m → idle r m → heap m !! r = Some j →
  ∃ m', handleJobError (id j) e m = (Normal (), m') ∧ well_formed m' ∧ frame r m m'.
Proof.
  intros Hwf Hidle Hobj.
  destruct (jobs m !! id j) as [r'|] eqn:Hreg.
  - assert (r' = r) as -> by by eapply closure_registry.
    rewrite (handleJobError_run _ _ _ _ _ Hreg Hobj).
    eexists. split; [done|].
    destruct (wf_store m r j (set_error e (set_state FAILED j))
                (onError_call r e j)) as (? & _ & ?); try done.
    unfold onError_call. destruct (onError j); own_effects.
  - rewrite handleJobError_unregistered by done.
    exists m. split; [done|]. split; [done|]. apply frame_refl.
Qed.

Lemma executeJobPolling_idle m r j :
  well_formed m → idle r m → heap m !! r = Some j →
  ∃ m', executeJobPolling (id j) m = (Normal (), m') ∧ well_formed m' ∧ frame r m m'.
Proof.
  intros Hwf Hidle Hobj.
  unfold executeJobPolling. js_unfold. cbn.
  destruct (jobs m !! id j) as [r'|] eqn:Hreg; cbn; [|exists m; split; [done|]; split; [done|]; apply frame_refl].
  assert (r' = r) as -> by by eapply closure_registry.
  rewrite Hobj.
  destruct (JobState_eqb (state j) POLLING) eqn:Hst; cbn;
    [|exists m; split; [done|]; split; [done|]; apply frame_refl].
  rewrite Hobj. eexists. split; [reflexivity|].
  assert (frame r m
            (mkMachine (jobs m) (options m)
               (<[r:=set_timerId (nextTimer m) j]> (heap m)) (nextRef m)
               (<[nextTimer m:=PollTick (id j) r]> (timers m)) (S (nextTimer m))
               (awaits m) (nextAwait m) (effects m))) as Hframe.
  { constructor; cbn; try done.
    - intros r0 Hne. by apply lookup_insert_ne.
    - intros t cb Hne. rewrite lookup_insert_Some. split.
      + by intros [[_ <-]|[_ H]].
      + intros H. right. split; [|done].
        apply (wf_timer_lt _ Hwf) in H. lia.
    - intros t cb [[_ <-]|[_ H]]%lookup_insert_Some _; [by right | by left].
    - lia.
    - intros j'. rewrite lookup_insert_eq. intros [= <-].
      exists j. split; [done|]. right. exists (nextTimer m). split; [done | lia].
    - exists []. by rewrite app_nil_r. }
  split; [|done].
  eapply (wf_idle_timer m _ r j (set_timerId (nextTimer m) j)); try done; cbn.
  - apply lookup_insert_eq.
  - apply Hframe.
  - by destruct (state j).
Qed.

(** A rejection that nobody handles. *)
Lemma reject_idle m0 m r j w :
  well_formed m → idle r m → heap m !! r = Some j → frame r m0 m →
  task_ends r m0 (emit (UnhandledRejection w) m).
Proof.
  intros Hwf Hidle Hobj Hframe. left.
  destruct (wf_emit m r j [UnhandledRejection w]) as (Hwf2 & _ & Hframe2);
    try done; [own_effects|].
  eexists. split; [reflexivity|]. split; [done | by eapply frame_trans].
Qed.

(** The catch block of an async method, and the end of the method. *)
Lemma catch_idle m0 m r j v :
  well_formed m → idle r m → heap m !! r = Some j → frame r m0 m →
  task_ends r m0
    (match
       match toError v with
       | Normal e => handleJobError (id j) e m
       | Throw w => (Throw w, m)
       | Wrong => (Wrong, m)
       end
     with
     | (Throw w, m') => emit (UnhandledRejection w) m'
     | res => res
     end).
Proof.
  intros Hwf Hidle Hobj Hframe. destruct (toError v) as [e|w|].
  - destruct (handleJobError_idle m r j e Hwf Hidle Hobj) as (m' & -> & ? & ?).
    left. exists m'. split; [done|]. split; [done | by eapply frame_trans].
  - by eapply reject_idle.
  - right. by eexists.
Qed.

Lemma task_ends_normal r m m' :
  well_formed m' → frame r m m' → task_ends r m (Normal (), m').
Proof. intros. left. by exists m'. Qed.

Lemma executeJobCompletion_idle m0 m r j :
  well_formed m → idle r m → heap m !! r = Some j →
  state j = POLLING ∨ state j = ABORTED →
  frame r m0 m →
  task_ends r m0 (executeJobCompletion (id j) m).
Proof.
  intros Hwf Hidle Hobj Hst Hframe.
  unfold executeJobCompletion. js_unfold. cbn.
  destruct (jobs m !! id j) as [r'|] eqn:Hreg; cbn;
    [|by apply task_ends_normal].
  assert (r' = r) as -> by by eapply closure_registry.
  rewrite Hobj.
  destruct (truthy (pollResult j)); cbn.
  - destruct (wf_emit m r j [CallComplete r (pollResult j)])
      as (Hwf2 & Hidle2 & Hframe2); try done; [own_effects|].
    destruct (completeFn j (pollResult j)) as [v|]; cbn.
    + eapply (catch_idle m0 _ r j v); try done. by eapply frame_trans.
    + apply task_ends_normal.
      * eapply (wf_idle_await m _ r j j); done.
      * eapply frame_trans; [done|].
        apply frame_await; [done | done | own_effects].
  - destruct (handleJobError_idle m r j (PollingError "Poll result is undefined")
                Hwf Hidle Hobj) as (m' & -> & ? & ?).
    apply task_ends_normal; [done | by eapply frame_trans].
Qed.

Lemma pollTick_idle m r j :
  well_formed m → idle r m → heap m !! r = Some j → state j = POLLING →
  task_ends r m (pollTick (id j) r m).
Proof.
  intros Hwf Hidle Hobj Hst.
  unfold pollTick. js_unfold. cbn. rewrite Hobj.
  destruct (truthy (triggerResult j)); cbn.
  - destruct (wf_emit m r j [CallPoll r (triggerResult j)])
      as (Hwf2 & Hidle2 & Hframe2); try done; [own_effects|].
    destruct (pollFn j (triggerResult j)) as [v|]; cbn.
    + by eapply (catch_idle m _ r j v).
    + apply task_ends_normal.
      * eapply (wf_idle_await m _ r j j); try done. by left.
      * apply frame_await; [done | done | own_effects].
  - destruct (handleJobError_idle m r j (PollingError "Trigger result is undefined")
                Hwf Hidle Hobj) as (m' & -> & ? & ?).
    by apply task_ends_normal.
Qed.

Lemma executeJobTrigger_resume_idle m r j s :
  well_formed m → idle r m → heap m !! r = Some j →
  task_ends r m (executeJobTrigger_resume (id j) r s m).
Proof.
  intros Hwf Hidle Hobj.
  unfold executeJobTrigger_resume. js_unfold. destruct s as [v|v]; cbn.
  - rewrite Hobj.
    destruct (wf_store_quiet m r j (set_triggerResult v j))
      as (Hwf2 & Hidle2 & Hframe2); try done.
    edestruct (executeJobPolling_idle _ r (set_triggerResult v j) Hwf2 Hidle2)
      as (m' & Hrun & ? & ?); [apply lookup_insert_eq|].
    cbn in Hrun. rewrite Hrun.
    apply task_ends_normal; [done | by eapply frame_trans].
  - eapply (catch_idle m m r j v); try done. apply frame_refl.
Qed.

Lemma pollTick_resume_idle m r j s :
  well_formed m → idle r m → heap m !! r = Some j →
  state j = POLLING ∨ state j = ABORTED →
  task_ends r m (pollTick_resume (id j) r s m).
Proof.
  intros Hwf Hidle Hobj Hst.
  unfold pollTick_resume. js_unfold. destruct s as [resp|v]; cbn.
  - destruct (done resp && is_defined (result resp)); cbn; rewrite Hobj.
    + destruct (wf_store_quiet m r j (set_pollResult (result resp) j))
        as (Hwf2 & Hidle2 & Hframe2); try done.
      pose proof (executeJobCompletion_idle m _ r
                    (set_pollResult (result resp) j) Hwf2 Hidle2) as Hc.
      cbn in Hc. rewrite lookup_insert_eq in Hc.
      specialize (Hc eq_refl Hst Hframe2).
      destruct Hc as [(m' & Hrun & ? & ?)|(m' & Hrun)]; rewrite Hrun; cbn.
      * by apply task_ends_normal.
      * right. by eexists.
    + destruct (wf_store_quiet m r j (set_retryCount (retryCount j + 1) j))
        as (Hwf2 & Hidle2 & Hframe2); try done.
      cbn. rewrite lookup_insert_eq. cbn.
      destruct (retryCount j + 1 >? maxRetryAttempts (options m)); cbn.
      * edestruct (handleJobError_idle _ r (set_retryCount (retryCount j + 1) j)
                     (PollingError
                        ("Exceeded maximum retry attempts ("
                           +:+ pretty (maxRetryAttempts (options m)) +:+ ")"))
                     Hwf2 Hidle2)
          as (m' & Hrun & ? & ?); [apply lookup_insert_eq|].
        cbn in Hrun. rewrite Hrun.
        apply task_ends_normal; [done | by eapply frame_trans].
      * edestruct (executeJobPolling_idle _ r (set_retryCount (retryCount j + 1) j)
                     Hwf2 Hidle2)
          as (m' & Hrun & ? & ?); [apply lookup_insert_eq|].
        cbn in Hrun. rewrite Hrun.
        apply task_ends_normal; [done | by eapply frame_trans].
  - eapply (catch_idle m m r j v); try done. apply frame_refl.
Qed.

Lemma executeJobCompletion_resume_idle m r j s :
  well_formed m → idle r m → heap m !! r = Some j →
  task_ends r m (executeJobCompletion_resume (id j) r s m).
Proof.
  intros Hwf Hidle Hobj.
  unfold executeJobCompletion_resume. js_unfold. destruct s as [v|v]; cbn.
  - rewrite Hobj. cbn. rewrite lookup_insert_eq. cbn.
    rewrite lookup_insert_eq, insert_insert_eq. cbn.
    destruct (onComplete j) as [cb|]; cbn.
    + destruct (wf_store m r j (set_state COMPLETED (set_finalResult v j))
                  [CallOnComplete r v]) as (? & _ & ?); try done;
        [own_effects|].
      destruct (cb v); cbn; by apply task_ends_normal.
    + destruct (wf_store_quiet m r j (set_state COMPLETED (set_finalResult v j)))
        as (? & _ & ?); try done.
      by apply task_ends_normal.
  - eapply (catch_idle m m r j v); try done. apply frame_refl.
Qed.

(** An event runs the pending task of one job object, and touches no other. *)
Lemma step_wf e m m' :
  well_formed m → step e m = Some m' →
  well_formed m' ∧ ∃ r, event_job e m = Some r ∧ busy r m ∧ frame r m m'.
Proof.
  intros Hwf Hstep. destruct e as [t|k s|k s|k s]; cbn in Hstep.
  - destruct (timers m !! t) as [[i r]|] eqn:Ht; [|done].
    destruct (wf_timer _ Hwf _ _ Ht) as (j & Hobj & Hid & _ & Hst).
    destruct (wf_drop_timer _ _ _ Hwf Ht) as [Hwf1 Hidle1].
    cbn in Hobj, Hid, Hidle1. subst i.
    destruct (pollTick_idle _ r j Hwf1 Hidle1 Hobj Hst)
      as [(m'' & Hrun & Hwf' & [Hj Hh Hft Hfa Hfo Hfn Hfi Hfe])|(m'' & Hrun)];
      unfold run_task in Hstep; rewrite Hrun in Hstep; [|done].
    injection Hstep as <-.
    split; [done|]. exists r. split; [cbn; by rewrite Ht|].
    split; [left; by exists t, (PollTick (id j) r)|].
    constructor; try done.
    + intros t' cb Hne. rewrite (Hft _ _ Hne). cbn.
      rewrite lookup_delete_Some. split; [by intros [_ H]|].
      intros H. split; [|done]. intros ->.
      rewrite Ht in H. injection H as <-. by apply Hne.
    + intros t' cb H Heq. destruct (Hfo _ _ H Heq) as [H1|H1]; [|by right].
      left. cbn in H1. by apply lookup_delete_Some in H1 as [_ H1].
  - destruct (awaits m !! k) as [[i r|i r|i r]|] eqn:Hk; try done.
    destruct (wf_await _ Hwf _ _ Hk) as (j & Hobj & Hid & Hst).
    destruct (wf_drop_await _ _ _ Hwf Hk) as [Hwf1 Hidle1].
    cbn in Hobj, Hid, Hidle1. subst i.
    destruct (executeJobTrigger_resume_idle _ r j s Hwf1 Hidle1 Hobj)
      as [(m'' & Hrun & Hwf' & [Hj Hh Hft Hfa Hfo Hfn Hfi Hfe])|(m'' & Hrun)];
      unfold run_task in Hstep; rewrite Hrun in Hstep; [|done].
    injection Hstep as <-.
    split; [done|]. exists r. split; [cbn; by rewrite Hk|].
    split; [right; by exists k, (AwaitTrigger (id j) r)|].
    constructor; try done.
    intros k' c Hne. rewrite (Hfa _ _ Hne). cbn.
    rewrite lookup_delete_Some. split; [by intros [_ H]|].
    intros H. split; [|done]. intros ->.
    rewrite Hk in H. injection H as <-. by apply Hne.
  - destruct (awaits m !! k) as [[i r|i r|i r]|] eqn:Hk; try done.
    destruct (wf_await _ Hwf _ _ Hk) as (j & Hobj & Hid & Hst).
    destruct (wf_drop_await _ _ _ Hwf Hk) as [Hwf1 Hidle1].
    cbn in Hobj, Hid, Hidle1. subst i.
    destruct (pollTick_resume_idle _ r j s Hwf1 Hidle1 Hobj Hst)
      as [(m'' & Hrun & Hwf' & [Hj Hh Hft Hfa Hfo Hfn Hfi Hfe])|(m'' & Hrun)];
      unfold run_task in Hstep; rewrite Hrun in Hstep; [|done].
    injection Hstep as <-.
    split; [done|]. exists r. split; [cbn; by rewrite Hk|].
    split; [right; by exists k, (AwaitPoll (id j) r)|].
    constructor; try done.
    intros k' c Hne. rewrite (Hfa _ _ Hne). cbn.
    rewrite lookup_delete_Some. split; [by intros [_ H]|].
    intros H. split; [|done]. intros ->.
    rewrite Hk in H. injection H as <-. by apply Hne.
  - destruct (awaits m !! k) as [[i r|i r|i r]|] eqn:Hk; try done.
    destruct (wf_await _ Hwf _ _ Hk) as (j & Hobj & Hid & Hst).
    destruct (wf_drop_await _ _ _ Hwf Hk) as [Hwf1 Hidle1].
    cbn in Hobj, Hid, Hidle1. subst i.
    destruct (executeJobCompletion_resume_idle _ r j s Hwf1 Hidle1 Hobj)
      as [(m'' & Hrun & Hwf' & [Hj Hh Hft Hfa Hfo Hfn Hfi Hfe])|(m'' & Hrun)];
      unfold run_task in Hstep; rewrite Hrun in Hstep; [|done].
    injection Hstep as <-.
    split; [done|]. exists r. split; [cbn; by rewrite Hk|].
    split; [right; by exists k, (AwaitComplete (id j) r)|].
    constructor; try done.
    intros k' c Hne. rewrite (Hfa _ _ Hne). cbn.
    rewrite lookup_delete_Some. split; [by intros [_ H]|].
    intros H. split; [|done]. intros ->.
    rewrite Hk in H. injection H as <-. by apply Hne.
Qed.

(** [abortJob] keeps the machine well formed. *)
Lemma abortJob_wf i m : well_formed m → well_formed (abortJob i m).2.
Proof.
  intros Hwf. destruct (jobs m !! i) as [r|] eqn:Hreg;
    [|by rewrite abortJob_unregistered].
  destruct (wf_registry _ Hwf _ _ Hreg) as (j & Hobj & Hid).
  rewrite (abortJob_run _ _ _ _ Hreg Hobj). cbn.
  assert (∀ t cb, timers (after_abort r j m) !! t = Some cb →
            timers m !! t = Some cb ∧ callback_job cb ≠ r) as Htimers.
  { cbn. intros t cb H.
    assert (timers m !! t = Some cb ∧ timerId j ≠ Some t) as [Hold Hne].
    { destruct (timerId j) as [t0|]; [|done].
      apply lookup_delete_Some in H as [Hne H]. split; [done|congruence]. }
    split; [done|]. intros Heq.
    destruct (wf_timer _ Hwf _ _ Hold) as (j0 & H0 & _ & Ht0 & _).
    rewrite Heq in H0. congruence. }
  eapply (wf_touch m _ r j (set_state ABORTED j)); try done; cbn.
  - apply lookup_insert_eq.
  - intros r0 Hne. by apply lookup_insert_ne.
  - intros t cb H. destruct (Htimers _ _ H) as [Hold Hne].
    left. split; [done|]. split; [done|]. by eapply wf_timer_lt.
  - intros k c H. destruct (decide (cont_job c = r)) as [Heq|Hne].
    + right. destruct (wf_await _ Hwf _ _ H) as (j0 & H0 & Hid0 & _).
      rewrite Heq in H0. split; [done|]. split; [congruence|].
      split; [by eapply wf_await_lt | by right].
    + left. split; [done|]. split; [done|]. by eapply wf_await_lt.
  - intros k1 k2 c1 c2 H1 H2 Heq1 Heq2. eapply (wf_one_await _ Hwf); [done..|].
    congruence.
  - intros t cb k c H _ Heq _. by destruct (Htimers _ _ H).
Qed.

Lemma wf_jobs_delete i m : well_formed m → well_formed (with_jobs (delete i) m).
Proof.
  intros Hwf. constructor; cbn; try apply Hwf.
  intros i' r [_ H]%lookup_delete_Some. by eapply wf_registry.
Qed.

(** [cleanupJob] keeps the machine well formed. *)
Lemma cleanupJob_wf i m : well_formed m → well_formed (cleanupJob i m).2.
Proof.
  intros Hwf. unfold cleanupJob. js_unfold. cbn.
  destruct (jobs m !! i) as [r|] eqn:Hreg; cbn; [|done].
  destruct (wf_registry _ Hwf _ _ Hreg) as (j & Hobj & Hid).
  rewrite Hobj. destruct (JobState_eqb (state j) POLLING); cbn.
  - pose proof (abortJob_wf i m Hwf) as Hab.
    rewrite (abortJob_run _ _ _ _ Hreg Hobj) in *. cbn in *.
    by apply (wf_jobs_delete i) in Hab.
  - by apply (wf_jobs_delete i) in Hwf.
Qed.

(** [startJob] keeps the machine well formed when the id it generates is new. *)
Lemma startJob_wf m now random tf pf cf oc oe :
  well_formed m → fresh_id (generateJobId now random) m →
  well_formed (startJob now random tf pf cf oc oe m).2.
Proof.
  intros Hwf Hfresh. set (i := generateJobId now random) in *.
  set (j0 := mkJob i PENDING tf pf cf oc oe VUndefined VUndefined VUndefined
               0 None None).
  set (m1 := mkMachine (<[i := nextRef m]> (jobs m)) (options m)
               (<[nextRef m := j0]> (heap m)) (S (nextRef m)) (timers m)
               (nextTimer m) (awaits m) (nextAwait m) (effects m)).
  assert (heap m !! nextRef m = None) as Hnone.
  { destruct (heap m !! nextRef m) as [j|] eqn:H; [|done].
    apply (wf_heap_lt _ Hwf) in H. lia. }
  assert (well_formed m1) as Hwf1.
  { constructor; cbn.
    - intros r j [[<- _]|[_ H]]%lookup_insert_Some; [lia|].
      apply (wf_heap_lt _ Hwf) in H. lia.
    - apply (wf_timer_lt _ Hwf).
    - apply (wf_await_lt _ Hwf).
    - intros i' r [[<- <-]|[Hne H]]%lookup_insert_Some.
      + exists j0. by rewrite lookup_insert_eq.
      + destruct (wf_registry _ Hwf _ _ H) as (j & Hj & Hid).
        exists j. split; [|done]. rewrite lookup_insert_ne; [done|].
        intros <-. congruence.
    - intros r1 r2 j1 j2 [[<- <-]|[Hne1 H1]]%lookup_insert_Some
        [[<- <-]|[Hne2 H2]]%lookup_insert_Some Heq; try done.
      + by destruct (Hfresh _ _ H2).
      + by destruct (Hfresh _ _ H1).
      + by eapply (wf_ids _ Hwf).
    - intros t cb H. destruct (wf_timer _ Hwf _ _ H) as (j & Hj & ?).
      exists j. split; [|done]. rewrite lookup_insert_ne; [done|].
      intros Heq. congruence.
    - intros k c H. destruct (wf_await _ Hwf _ _ H) as (j & Hj & ?).
      exists j. split; [|done]. rewrite lookup_insert_ne; [done|].
      intros Heq. congruence.
    - apply (wf_one_await _ Hwf).
    - apply (wf_excl _ Hwf). }
  assert (idle (nextRef m) m1) as Hidle1.
  { split; cbn.
    - intros t cb H Heq. destruct (wf_timer _ Hwf _ _ H) as (j & Hj & _).
      congruence.
    - intros k c H Heq. destruct (wf_await _ Hwf _ _ H) as (j & Hj & _).
      congruence. }
  assert (heap m1 !! nextRef m = Some j0) as Hobj1 by apply lookup_insert_eq.
  destruct (wf_store m1 (nextRef m) j0 (set_state POLLING j0)
              [CallTrigger (nextRef m)])
    as (Hwf2 & Hidle2 & Hframe2); try done; [own_effects|].
  unfold startJob, executeJobTrigger. js_unfold.
  subst m1 j0 i. js_run. cbn in Hwf2, Hidle2.
  rewrite insert_insert_eq in Hwf2, Hidle2.
  destruct (tf ()) as [v|]; cbn.
  - destruct (toError v) as [e|w|]; cbn.
    + edestruct (handleJobError_idle _ (nextRef m)
                   (mkJob (generateJobId now random) POLLING tf pf cf oc oe
                      VUndefined VUndefined VUndefined 0 None None)
                   e Hwf2 Hidle2)
        as (m' & Hrun & Hwf' & _); [apply lookup_insert_eq|].
      cbn in Hrun. rewrite Hrun. done.
    + edestruct (wf_emit _ (nextRef m)
                   (mkJob (generateJobId now random) POLLING tf pf cf oc oe
                      VUndefined VUndefined VUndefined 0 None None)
                   [UnhandledRejection w] Hwf2 Hidle2)
        as (Hwf' & _); [apply lookup_insert_eq | own_effects |].
      exact Hwf'.
    + exact Hwf2.
  - eapply (wf_idle_await _ _ (nextRef m)
              (mkJob (generateJobId now random) POLLING tf pf cf oc oe
                 VUndefined VUndefined VUndefined 0 None None)
              (mkJob (generateJobId now random) POLLING tf pf cf oc oe
                 VUndefined VUndefined VUndefined 0 None None));
      try done; cbn; try done.
    + apply lookup_insert_eq.
    + apply lookup_insert_eq.
    + by left.
Qed.

Lemma exec_wf a m m' :
  well_formed m → fresh_action a m → exec a m = Some m' → well_formed m'.
Proof.
  intros Hwf Hfresh Hexec. destruct a as [now random tf pf cf oc oe|i|i|e]; cbn in *.
  - pose proof (startJob_wf m now random tf pf cf oc oe Hwf Hfresh) as H.
    unfold host_call in Hexec.
    destruct (startJob now random tf pf cf oc oe m) as [[a| |] m1]; [|done..].
    by injection Hexec as <-.
  - pose proof (abortJob_wf i m Hwf) as H. unfold host_call in Hexec.
    destruct (abortJob i m) as [[a| |] m1]; [|done..].
    by injection Hexec as <-.
  - pose proof (cleanupJob_wf i m Hwf) as H. unfold host_call in Hexec.
    destruct (cleanupJob i m) as [[a| |] m1]; [|done..].
    by injection Hexec as <-.
  - by destruct (step_wf e m m' Hwf Hexec).
Qed.

Lemma new_manager_wf opts : well_formed (new_manager opts).
Proof. constructor; cbn; intros; by simplify_map_eq. Qed.

Theorem reachable_wf m : reachable m → well_formed m.
Proof.
  induction 1 as [opts|m a m' _ IH Hfresh Hexec]; [apply new_manager_wf|].
  by eapply exec_wf.
Qed.

(** In a reachable machine the timers pending for a job object are the one
    timer it holds. *)
Lemma reachable_timer_owner m job j t cb :
  reachable m → heap m !! job = Some j →
  timers m !! t = Some cb → callback_job cb = job → timerId j = Some t.
Proof.
  intros Hr Hobj Ht Hcb. apply reachable_wf in Hr.
  destruct (wf_timer _ Hr _ _ Ht) as (j' & Hj' & _ & Htid & _). congruence.
Qed.

(** A job object with nothing pending is left alone by every event, and still
    has nothing pending afterwards. *)
Lemma idle_job_is_stable m r e m' :
  reachable m → idle r m → step e m = Some m' →
  heap m' !! r = heap m !! r ∧ jobs m' = jobs m ∧ idle r m' ∧
  ∃ l, effects m' = effects m ++ l ∧ Forall (λ e, effect_job e ≠ Some r) l.
Proof.
  intros Hr [Hit Hia] Hstep. apply reachable_wf in Hr.
  destruct (step_wf e m m' Hr Hstep)
    as (_ & r0 & _ & Hbusy & [Hj Hh Hft Hfa _ _ _ (l & Hl & Hlr)]).
  assert (r ≠ r0) as Hne.
  { intros ->. destruct Hbusy as [(t & cb & H & Heq)|(k & c & H & Heq)].
    - by destruct (Hit _ _ H).
    - by destruct (Hia _ _ H). }
  split; [by apply Hh|]. split; [done|]. split; [split|].
  - intros t cb H Heq. eapply Hit; [|done]. apply Hft; [congruence|done].
  - intros k c H Heq. eapply Hia; [|done]. apply Hfa; [congruence|done].
  - exists l. split; [done|]. eapply Forall_impl; [exact Hlr|].
    intros e0 He0 Heq. apply Hne. exact (He0 _ Heq).
Qed.

(** A job that is COMPLETED or FAILED has nothing pending. *)
Lemma settled_job_is_idle m r j :
  reachable m → heap m !! r = Some j →
  state j = COMPLETED ∨ state j = FAILED → idle r m.
Proof.
  intros Hr Hobj Hst. apply reachable_wf in Hr. split.
  - intros t cb H Heq. destruct (wf_timer _ Hr _ _ H) as (j' & Hj' & _ & _ & Hst').
    rewrite Heq in Hj'. destruct Hst; congruence.
  - intros k c H Heq. destruct (wf_await _ Hr _ _ H) as (j' & Hj' & _ & Hst').
    rewrite Heq in Hj'. destruct Hst, Hst'; congruence.
Qed.

(** No event changes a job that is COMPLETED or FAILED. *)
Theorem settled_job_is_stable m i j e m' :
  reachable m → job_of i m = Some j →
  state j = COMPLETED ∨ state j = FAILED →
  step e m = Some m' →
  job_of i m' = Some j.
Proof.
  intros Hr Hjob Hst Hstep. unfold job_of in *.
  destruct (jobs m !! i) as [r|] eqn:Hreg; [|done]. cbn in Hjob.
  destruct (idle_job_is_stable m r e m' Hr) as (Hh & Hj & _); [|done|].
  { by eapply settled_job_is_idle. }
  rewrite Hj, Hreg. cbn. congruence.
Qed.

(** Every sequence of events leaves such a job object alone. *)
Lemma idle_job_stays r (es : list Event) : ∀ m m',
  reachable m → idle r m → run (Env <$> es) m = Some m' →
  heap m' !! r = heap m !! r ∧ jobs m' = jobs m ∧ idle r m' ∧
  ∃ l, effects m' = effects m ++ l ∧ Forall (λ e, effect_job e ≠ Some r) l.
Proof.
  induction es as [|e es IH]; intros m m' Hr Hidle Hrun; cbn in Hrun.
  - injection Hrun as <-. split; [done|]. split; [done|]. split; [done|].
    exists []. by rewrite app_nil_r.
  - destruct (step e m) as [m1|] eqn:Hstep; [|done].
    destruct (idle_job_is_stable m r e m1 Hr Hidle Hstep)
      as (Hh1 & Hj1 & Hidle1 & l1 & He1 & Hl1).
    assert (reachable m1) as Hr1.
    { by eapply (reachable_exec m (Env e)). }
    destruct (IH m1 m' Hr1 Hidle1 Hrun) as (Hh & Hj & Hidle' & l & He & Hl).
    split; [congruence|]. split; [congruence|]. split; [done|].
    exists (l1 ++ l). split; [by rewrite He, He1, app_assoc|].
    by apply Forall_app.
Qed.

(** After [abortJob] a job that had no stage function in flight has nothing
    pending. *)
Lemma abortJob_idle m i r :
  reachable m → jobs m !! i = Some r →
  (∀ k c, awaits m !! k = Some c → cont_job c ≠ r) →
  idle r (abortJob i m).2.
Proof.
  intros Hr Hreg Hquiet. apply reachable_wf in Hr.
  destruct (wf_registry _ Hr _ _ Hreg) as (j & Hobj & _).
  rewrite (abortJob_run _ _ _ _ Hreg Hobj). split; cbn; [|done].
  intros t cb H Heq.
  assert (timers m !! t = Some cb ∧ timerId j ≠ Some t) as [Hold Hne].
  { destruct (timerId j) as [t0|]; [|done].
    apply lookup_delete_Some in H as [Hne H]. split; [done|congruence]. }
  destruct (wf_timer _ Hr _ _ Hold) as (j0 & H0 & _ & Ht0 & _).
  rewrite Heq in H0. congruence.
Qed.

(** Abort between two calls is final: a job aborted while none of its stage
    functions is in flight reads ABORTED after every sequence of events,
    nothing is pending for it, and no function or callback of the job is
    called. *)
Theorem abort_between_calls_is_final m i r (es : list Event) m' :
  reachable m → jobs m !! i = Some r →
  (∀ k c, awaits m !! k = Some c → cont_job c ≠ r) →
  run (AbortJob i :: (Env <$> es)) m = Some m' →
  observed_state i m' = Some ABORTED ∧ idle r m' ∧
  ∃ l, effects m' = effects m ++ l ∧ Forall (λ e, effect_job e ≠ Some r) l.
Proof.
  intros Hr Hreg Hquiet Hrun.
  pose proof (abortJob_idle m i r Hr Hreg Hquiet) as Hidle.
  pose proof (reachable_wf _ Hr) as Hwf.
  destruct (wf_registry _ Hwf _ _ Hreg) as (j & Hobj & _).
  assert (reachable (abortJob i m).2) as Hr1.
  { eapply (reachable_exec m (AbortJob i)); [done..|].
    cbn. unfold host_call. by rewrite (abortJob_run _ _ _ _ Hreg Hobj). }
  cbn in Hrun. unfold host_call in Hrun.
  rewrite (abortJob_run _ _ _ _ Hreg Hobj) in *. cbn in *.
  destruct (idle_job_stays r es _ m' Hr1 Hidle Hrun)
    as (Hh & Hj & Hidle' & l & He & Hl).
  cbn in Hh, Hj, He. rewrite lookup_insert_eq in Hh.
  split; [|split; [done|by exists l]].
  erewrite observed_state_job; [|by rewrite Hj|exact Hh]. done.
Qed.

(** In a reachable machine [abortJob] leaves no timer pending for the job. *)
Lemma abortJob_cancels_timers m i r :
  reachable m → jobs m !! i = Some r →
  pending_timers r (abortJob i m).2 = ∅.
Proof.
  intros Hr Hreg. apply reachable_wf in Hr.
  destruct (wf_registry _ Hr _ _ Hreg) as (j & Hobj & _).
  rewrite (abortJob_run _ _ _ _ Hreg Hobj).
  unfold pending_timers. apply map_empty. intros t.
  apply map_lookup_filter_None. right. intros cb H Heq. cbn in *.
  assert (timers m !! t = Some cb ∧ timerId j ≠ Some t) as [Hold Hne].
  { destruct (timerId j) as [t0|]; [|done].
    apply lookup_delete_Some in H as [Hne H]. split; [done|congruence]. }
  destruct (wf_timer _ Hr _ _ Hold) as (j0 & H0 & _ & Ht0 & _).
  rewrite Heq in H0. congruence.
Qed.

(** The retry ceiling in a reachable machine: the timer of the job is the one
    it holds and the only one pending for it, so the rounds need no more than
    the job being in POLLING with its first timer pending. *)
Lemma retry_ceiling_reachable (n : nat) (i : string) (r : ObjRef) (m : Machine)
    (j : Job) (t : TimerId) (resps : list PollResponse) :
  reachable m →
  maxRetryAttempts (options m) = Z.of_nat n →
  jobs m !! i = Some r →
  heap m !! r = Some j →
  timers m !! t = Some (PollTick i r) →
  truthy (triggerResult j) = true →
  retryCount j = 0 →
  (∀ v, pollFn j v = Promise) →
  Forall not_done resps →
  length resps = S n →
  ∃ m',
    poll_rounds r resps m = Some m' ∧
    observed_state i m' = Some FAILED ∧
    poll_calls r m' = (poll_calls r m + S n)%nat ∧
    pending_timers r m' = ∅.
Proof.
  intros Hr Hmax Hreg Hobj Ht Htr Hrc Hpoll Hnd Hlen.
  pose proof (reachable_wf _ Hr) as Hwf.
  destruct (wf_timer _ Hwf _ _ Ht) as (j' & Hobj' & _ & Htid & Hst).
  cbn in Hobj'. assert (j' = j) as -> by congruence.
  assert (polling_at n i r j 0 t m) as Hinv.
  { unfold polling_at. split; [done|]. split; [done|]. split; [|split; [done|]].
    - rewrite Hobj. f_equal. destruct j; cbn in *. by subst.
    - intros t' cb Hcb Hjob.
      pose proof (reachable_timer_owner m r j t' cb Hr Hobj Hcb Hjob).
      congruence. }
  destruct (poll_rounds_to_ceiling n i r j Hst Htr Hpoll resps t m Hinv Hlen Hnd)
    as (m' & t' & Hrounds & Hjob & Heff & Hpend).
  exists m'. split; [exact Hrounds|].
  split; [by rewrite (observed_state_job_of _ _ _ Hjob)|].
  split; [|exact Hpend].
  unfold poll_calls. rewrite Heff. apply poll_calls_replicate.
  unfold onError_call. destruct (onError j); by repeat constructor.
Qed.

(** The machines of the fixture are reachable. *)
Lemma fixture_triggering_reachable : reachable Fixture.triggering.
Proof.
  eapply (reachable_exec Fixture.manager
            (StartJob 17 "k3x9q2a" Fixture.trigger Fixture.poll Fixture.complete
               (Some Fixture.quiet) (Some Fixture.quietE))).
  - apply reachable_new.
  - intros r j H. unfold Fixture.manager, new_manager in H. cbn in H.
    by rewrite lookup_empty in H.
  - vm_compute. reflexivity.
Qed.

Lemma fixture_waiting_reachable : reachable Fixture.waiting.
Proof.
  eapply (reachable_exec Fixture.triggering
            (Env (TriggerSettled 0%nat (Fulfilled (VStr "trk-1"))))).
  - apply fixture_triggering_reachable.
  - exact I.
  - vm_compute. reflexivity.
Qed.

Lemma fixture_polling_reachable : reachable Fixture.polling.
Proof.
  eapply (reachable_exec Fixture.waiting (Env (TimerFired 1%nat))).
  - apply fixture_waiting_reachable.
  - exact I.
  - vm_compute. reflexivity.
Qed.
